(** * geometric_shapes: mesh construction ([src/mesh_operations.cpp])

    A shallow embedding of the mesh-building entry points of
    [mesh_operations.cpp] and the properties its specification states
    about them.

    Numbers are modelled as the code has them:
    - [double] and [float] are IEEE 754 binary64 / binary32 values, taken
      from the Standard Library's [SpecFloat] (round to nearest even, one
      NaN);
    - [unsigned int] is a [Z] reduced modulo [2^32] wherever the source
      computes in that type;
    - heap arrays ([new double[n]]) are lists of cells, a cell being [None]
      until the program stores into it;
    - [std::set] is the red-black tree of the GNU C++ library, searched
      and rebalanced as [_Rb_tree] does it, so that the behaviour on
      comparators that are not strict weak orders (a NaN coordinate) is
      the library's too. *)

From Stdlib Require Import ZArith Lia Bool String.
From Stdlib Require Import Floats.SpecFloat.
From stdpp Require Import base list sorting lexico.

Local Open Scope Z_scope.

(** ** Machine numbers *)

Module UInt.
(** [unsigned int]: 32 bits, arithmetic wraps. *)
Definition modulus : Z := 2 ^ 32.
Definition wrap (z : Z) : Z := z mod modulus.
Definition add (a b : Z) : Z := wrap (a + b).
Definition mul (a b : Z) : Z := wrap (a * b).
(** Conversion of a [std::size_t] container size. *)
Definition of_size (n : nat) : Z := wrap (Z.of_nat n).
End UInt.

Module Double.
Definition prec : Z := 53.
Definition emax : Z := 1024.
Definition double := spec_float.

Definition zero : double := S754_zero false.
Definition nan : double := S754_nan.
Definition of_Z (z : Z) : double := binary_normalize prec emax z 0 false.
Definition one : double := of_Z 1.
Definition two : double := of_Z 2.

Definition add : double -> double -> double := SFadd prec emax.
Definition sub : double -> double -> double := SFsub prec emax.
Definition mul : double -> double -> double := SFmul prec emax.
Definition div : double -> double -> double := SFdiv prec emax.
Definition sqrt : double -> double := SFsqrt prec emax.
Definition opp : double -> double := SFopp.
(** The C++ operators [<], [>] and [==] on doubles. *)
Definition ltb : double -> double -> bool := SFltb.
Definition gtb (a b : double) : bool := SFltb b a.
Definition eqb : double -> double -> bool := SFeqb.

Definition is_nan (a : double) : bool :=
  match a with S754_nan => true | _ => false end.
Definition is_zero (a : double) : bool :=
  match a with S754_zero _ => true | _ => false end.
End Double.

Module Float.
(** Single precision, the scalar type of the import library's matrices
    and vectors. *)
Definition prec : Z := 24.
Definition emax : Z := 128.
Definition float := spec_float.

Definition zero : float := S754_zero false.
Definition of_Z (z : Z) : float := binary_normalize prec emax z 0 false.
Definition one : float := of_Z 1.
Definition add : float -> float -> float := SFadd prec emax.
Definition mul : float -> float -> float := SFmul prec emax.

(** Promotion [float -> double]; every binary32 value is a binary64
    value, so the conversion only renormalises the mantissa. *)
Definition to_double (a : float) : Double.double :=
  match a with
  | S754_finite s m e => binary_normalize Double.prec Double.emax
                           (cond_Zopp s (Zpos m)) e s
  | _ => a
  end.
End Float.

Abbreviation double := Double.double.
Abbreviation float := Float.float.

(** ** Eigen::Vector3d *)

Module Eigen.
Record Vector3d := Vec3 { x : double; y : double; z : double }.

Definition Zero : Vector3d := Vec3 Double.zero Double.zero Double.zero.

Definition add (a b : Vector3d) : Vector3d :=
  Vec3 (Double.add (x a) (x b)) (Double.add (y a) (y b))
       (Double.add (z a) (z b)).

Definition sub (a b : Vector3d) : Vector3d :=
  Vec3 (Double.sub (x a) (x b)) (Double.sub (y a) (y b))
       (Double.sub (z a) (z b)).

Definition cross (a b : Vector3d) : Vector3d :=
  Vec3 (Double.sub (Double.mul (y a) (z b)) (Double.mul (z a) (y b)))
       (Double.sub (Double.mul (z a) (x b)) (Double.mul (x a) (z b)))
       (Double.sub (Double.mul (x a) (y b)) (Double.mul (y a) (x b))).

Definition squaredNorm (a : Vector3d) : double :=
  Double.add (Double.add (Double.mul (x a) (x a)) (Double.mul (y a) (y a)))
             (Double.mul (z a) (z a)).

Definition norm (a : Vector3d) : double := Double.sqrt (squaredNorm a).

(** Component-wise [==]. *)
Definition eqb (a b : Vector3d) : bool :=
  Double.eqb (x a) (x b) && Double.eqb (y a) (y b) && Double.eqb (z a) (z b).

Definition has_nan (a : Vector3d) : bool :=
  Double.is_nan (x a) || Double.is_nan (y a) || Double.is_nan (z a).

Definition is_zero (a : Vector3d) : bool :=
  Double.is_zero (x a) && Double.is_zero (y a) && Double.is_zero (z a).
End Eigen.

(** ** Diagnostics (console_bridge) *)

Inductive LogLevel := CONSOLE_BRIDGE_LOG_WARN | CONSOLE_BRIDGE_LOG_ERROR.

Record LogEntry := Log { level : LogLevel; message : string }.

Definition logWarn (msg : string) : LogEntry := Log CONSOLE_BRIDGE_LOG_WARN msg.
Definition logError (msg : string) : LogEntry := Log CONSOLE_BRIDGE_LOG_ERROR msg.

(** A call returns the diagnostics it emitted together with its value. *)
Definition Logged (A : Type) : Type := list LogEntry * A.

(** ** Control: counted loops *)

(** [for (unsigned int i = 0 ; i < n ; ++i) body], the state threaded
    through the iterations.  The counter of iteration [k] is [k] reduced to
    an [unsigned int]; for a bound above [2^32] the source loop does not
    come to an end, and nothing below is stated for such bounds. *)
Definition for_loop {S : Type} (n : nat) (body : Z -> S -> S) (s : S) : S :=
  fold_left (fun s k => body (UInt.of_size k) s) (seq 0 n) s.

(** ** Heap arrays *)

Module Array.
(** A cell is [None] until it has been written. *)
Abbreviation array A := (list (option A)).

Definition new (A : Type) (n : Z) : array A := replicate (Z.to_nat n) None.

(** [a[i] = v].  A write past the end is outside the language's defined
    behaviour; the model leaves the array as it is. *)
Definition store {A : Type} (a : array A) (i : Z) (v : A) : array A :=
  <[Z.to_nat i := Some v]> a.

(** [a[i]] as an rvalue: [None] for a cell never written or out of range. *)
Definition load {A : Type} (a : array A) (i : Z) : option A :=
  match a !! Z.to_nat i with
  | Some c => c
  | None => None
  end.

(** [std::copy(first, last, a)]. *)
Definition copy {A : Type} (src : list A) (a : array A) : array A :=
  fold_left (fun a (kv : nat * A) => <[kv.1 := Some kv.2]> a)
            (zip (seq 0 (length src)) src) a.

Definition populated {A : Type} (a : array A) : Prop :=
  Forall (fun c => is_Some c) a.
End Array.

(** ** The Mesh entity

    [class Mesh] is declared in [shapes.h] and its normal computations are
    defined in [shapes.cpp]; this file only uses them. *)

(** Modelled from the spec: the [Mesh] class of [shapes.h] (section 3 of
    the specification): two counts and four flat arrays, three cells per
    vertex or triangle, as [mesh_operations.cpp] addresses them
    ([vertices[3 * i + k]]). *)
Record Mesh := mkMesh {
  vertex_count : Z;
  triangle_count : Z;
  vertices : Array.array double;
  triangles : Array.array Z;
  triangle_normals : Array.array double;
  vertex_normals : Array.array double
}.

(** Modelled from the spec: the constructor [Mesh(v_count, t_count)] of
    [shapes.h] (section 4.5: "allocates the Mesh entity"); the four arrays
    are allocated for the given counts, which the callers pass as
    [unsigned int]s, and not yet written. *)
Definition Mesh_new (v_count t_count : Z) : Mesh :=
  mkMesh v_count t_count
         (Array.new double (3 * v_count)) (Array.new Z (3 * t_count))
         (Array.new double (3 * t_count)) (Array.new double (3 * v_count)).

Definition set_vertices (m : Mesh) (a : Array.array double) : Mesh :=
  mkMesh (vertex_count m) (triangle_count m) a (triangles m)
         (triangle_normals m) (vertex_normals m).

Definition set_triangles (m : Mesh) (a : Array.array Z) : Mesh :=
  mkMesh (vertex_count m) (triangle_count m) (vertices m) a
         (triangle_normals m) (vertex_normals m).

Definition set_triangle_normals (m : Mesh) (a : Array.array double) : Mesh :=
  mkMesh (vertex_count m) (triangle_count m) (vertices m) (triangles m)
         a (vertex_normals m).

Definition set_vertex_normals (m : Mesh) (a : Array.array double) : Mesh :=
  mkMesh (vertex_count m) (triangle_count m) (vertices m) (triangles m)
         (triangle_normals m) a.

(** Reading a triple of consecutive cells. *)
Definition load3 {A : Type} (a : Array.array A) (i : Z) : option (A * A * A) :=
  u ← Array.load a (3 * i);
  v ← Array.load a (3 * i + 1);
  w ← Array.load a (3 * i + 2);
  Some (u, v, w).

Definition load_vec (a : Array.array double) (i : Z) : option Eigen.Vector3d :=
  c ← load3 a i; Some (Eigen.Vec3 c.1.1 c.1.2 c.2).

(** The three cells a vector (or an indeterminate value) occupies. *)
Definition cells (o : option Eigen.Vector3d) : Array.array double :=
  match o with
  | Some v => [Some (Eigen.x v); Some (Eigen.y v); Some (Eigen.z v)]
  | None => [None; None; None]
  end.

Module NormalComputer.
(** Modelled from the spec: normalisation as section 4.4 requires it, a
    vector of length zero giving the zero vector instead of a division
    by zero. *)
Definition normalize (v : Eigen.Vector3d) : Eigen.Vector3d :=
  let n := Eigen.norm v in
  if Double.eqb n Double.zero then Eigen.Zero
  else Eigen.Vec3 (Double.div (Eigen.x v) n) (Double.div (Eigen.y v) n)
                  (Double.div (Eigen.z v) n).

(** Modelled from the spec: "for triangle (a, b, c), normal =
    normalize((b - a) x (c - a))". *)
Definition face_normal (a b c : Eigen.Vector3d) : Eigen.Vector3d :=
  normalize (Eigen.cross (Eigen.sub b a) (Eigen.sub c a)).

(** Modelled from the spec: the normal of triangle [t] (section 4.4), its
    corners read through the triangle's three indices; indeterminate when
    one of the indices, or of the coordinates they select, is. *)
Definition triangle_normal (m : Mesh) (t : Z) : option Eigen.Vector3d :=
  idx ← load3 (triangles m) t;
  a ← load_vec (vertices m) idx.1.1;
  b ← load_vec (vertices m) idx.1.2;
  c ← load_vec (vertices m) idx.2;
  Some (face_normal a b c).

(** Modelled from the spec: [Mesh::computeTriangleNormals] of
    [shapes.cpp] (section 4.4, per-triangle normals): one normal per
    triangle, written to [triangle_normals]. *)
Definition computeTriangleNormals (m : Mesh) : Mesh :=
  set_triangle_normals m
    (flat_map (fun t => cells (triangle_normal m (Z.of_nat t)))
              (seq 0 (Z.to_nat (triangle_count m)))).

(** Modelled from the spec: "every triangle referencing it" (section 4.4),
    a triangle referencing the vertices its three indices name. *)
Definition references (idx : Z * Z * Z) (v : Z) : bool :=
  (idx.1.1 =? v) || (idx.1.2 =? v) || (idx.2 =? v).

(** Modelled from the spec: the index triple and the stored normal of
    every triangle, which the per-vertex pass reads. *)
Definition incidence (m : Mesh) : option (list (Z * Z * Z * Eigen.Vector3d)) :=
  mapM (fun t => idx ← load3 (triangles m) (Z.of_nat t);
                 n ← load_vec (triangle_normals m) (Z.of_nat t);
                 Some (idx, n))
       (seq 0 (Z.to_nat (triangle_count m))).

(** Modelled from the spec: the unweighted sum of a vertex's incident
    normals (section 4.4), added in triangle order from the zero vector. *)
Definition sum_normals (ns : list Eigen.Vector3d) : Eigen.Vector3d :=
  fold_left Eigen.add ns Eigen.Zero.

(** Modelled from the spec: the normals of the triangles that reference
    vertex [v], each triangle counted once. *)
Definition incident_normals (inc : list (Z * Z * Z * Eigen.Vector3d)) (v : Z)
  : list Eigen.Vector3d :=
  map snd (filter (fun tn => references tn.1 v = true) inc).

(** Modelled from the spec: the normal of vertex [v] (section 4.4), the
    normalised sum of its incident normals. *)
Definition vertex_normal (m : Mesh) (v : Z) : option Eigen.Vector3d :=
  inc ← incidence m;
  Some (normalize (sum_normals (incident_normals inc v))).

(** Modelled from the spec: [Mesh::computeVertexNormals] of [shapes.cpp]
    (section 4.4, per-vertex normals): for each vertex the normals of the
    triangles that reference it are summed, unweighted, and the sum is
    normalised. *)
Definition computeVertexNormals (m : Mesh) : Mesh :=
  set_vertex_normals m
    (flat_map (fun v => cells (vertex_normal m (Z.of_nat v)))
              (seq 0 (Z.to_nat (vertex_count m)))).
End NormalComputer.

(** ** std::set and std::sort *)

Module StdSet.
(** [std::set<A, comp>] as the GNU C++ library implements it ([_Rb_tree]):
    a red-black tree searched with [comp] alone.  For a comparator that is
    a strict weak order on the values stored the standard fixes what every
    operation returns; the shape of the tree and the order of the
    comparisons show only for other comparators (here: when a coordinate
    is NaN). *)
Inductive color := Red | Black.

Inductive tree (A : Type) : Type :=
| Leaf
| Node (c : color) (l : tree A) (v : A) (r : tree A).
Arguments Leaf {A}.
Arguments Node {A} c l v r.

Section Ordered.
Context {A : Type} (comp : A -> A -> bool).

Definition t : Type := tree A.

Definition empty : t := Leaf.

(** [begin() .. end()]: the elements from left to right. *)
Fixpoint elements (s : t) : list A :=
  match s with
  | Leaf => []
  | Node _ l v r => elements l ++ v :: elements r
  end.

(** [size()], the number of nodes. *)
Definition size (s : t) : nat := length (elements s).

(** [_M_lower_bound(x, y, k)]: [y] is the last node at which the descent
    went left, [None] standing for [end()]. *)
Fixpoint lower_bound (k : A) (x : t) (y : option A) : option A :=
  match x with
  | Leaf => y
  | Node _ l v r =>
      if negb (comp v k) then lower_bound k l (Some v) else lower_bound k r y
  end.

(** [s.find(k)]: [None] stands for [s.end()]. *)
Definition find (k : A) (s : t) : option A :=
  match lower_bound k s None with
  | None => None
  | Some j => if comp k j then None else Some j
  end.

(** [_M_get_insert_unique_pos(k)], the element the key is compared with
    once the descent has reached a leaf: the node left last to the right,
    which is the predecessor of the place of insertion; [None] when that
    place is [begin()]. *)
Fixpoint insert_pos_pred (k : A) (x : t) (j : option A) : option A :=
  match x with
  | Leaf => j
  | Node _ l v r =>
      if comp k v then insert_pos_pred k l j else insert_pos_pred k r (Some v)
  end.

Definition is_red (s : t) : bool :=
  match s with Node Red _ _ _ => true | _ => false end.

Definition blacken (s : t) : t :=
  match s with Node _ l v r => Node Black l v r | Leaf => Leaf end.

(** One turn of the loop of [_Rb_tree_insert_and_rebalance], seen from the
    grandparent [Node c l v r] of the red node [x] on the way to [k], when
    the parent of [x] is the left child: a red uncle is recoloured with
    the parent, a black one calls for one or two rotations. *)
Definition rebalance_left (k : A) (c : color) (l : t) (v : A) (r : t) : t :=
  match l with
  | Node Red a pv b =>
      if comp k pv then
        match a with
        | Node Red _ _ _ =>
            if is_red r then Node Red (Node Black a pv b) v (blacken r)
            else Node Black a pv (Node Red b v r)
        | _ => Node c l v r
        end
      else
        match b with
        | Node Red b1 bv b2 =>
            if is_red r then Node Red (Node Black a pv b) v (blacken r)
            else Node Black (Node Red a pv b1) bv (Node Red b2 v r)
        | _ => Node c l v r
        end
  | _ => Node c l v r
  end.

(** The same when the parent of [x] is the right child. *)
Definition rebalance_right (k : A) (c : color) (l : t) (v : A) (r : t) : t :=
  match r with
  | Node Red a pv b =>
      if comp k pv then
        match a with
        | Node Red a1 av a2 =>
            if is_red l then Node Red (blacken l) v (Node Black a pv b)
            else Node Black (Node Red l v a1) av (Node Red a2 pv b)
        | _ => Node c l v r
        end
      else
        match b with
        | Node Red _ _ _ =>
            if is_red l then Node Red (blacken l) v (Node Black a pv b)
            else Node Black (Node Red l v a) pv b
        | _ => Node c l v r
        end
  | _ => Node c l v r
  end.

(** [_M_insert_] followed by [_Rb_tree_insert_and_rebalance]: the new red
    node goes where the descent by [comp k] ends, the tree is rebalanced on
    the way back, and the root is made black. *)
Fixpoint insert_red (k : A) (s : t) : t :=
  match s with
  | Leaf => Node Red Leaf k Leaf
  | Node c l v r =>
      if comp k v then rebalance_left k c (insert_red k l) v r
      else rebalance_right k c l v (insert_red k r)
  end.

Definition insert_and_rebalance (k : A) (s : t) : t := blacken (insert_red k s).

(** [s.insert(k)]: nothing is inserted when the predecessor of the place
    of insertion is not ordered before [k]. *)
Definition insert (k : A) (s : t) : t :=
  match insert_pos_pred k s None with
  | None => insert_and_rebalance k s
  | Some j => if comp j k then insert_and_rebalance k s else s
  end.
End Ordered.
End StdSet.

(** [std::sort(first, last, comp)] leaves no element before one it is
    ordered after.  Which of two elements that [comp] does not separate
    comes first is unspecified; a merge sort is taken. *)
Definition std_sort {A : Type} (comp : A -> A -> bool) (l : list A) : list A :=
  merge_sort (fun a b => comp b a = false)
             (H := fun a b => decide (comp b a = false)) l.

(** ** Vertex records used for welding *)

Module detail.
(** Local representation of a vertex that knows its position in an array. *)
Record LocalVertexType := mkLocalVertex {
  x : double; y : double; z : double; index : Z
}.

(** [LocalVertexType(const Eigen::Vector3d &v)].  The constructor leaves
    [index] unset; every use below assigns it before reading it. *)
Definition of_vector (v : Eigen.Vector3d) : LocalVertexType :=
  mkLocalVertex (Eigen.x v) (Eigen.y v) (Eigen.z v) 0.

Definition set_index (p : LocalVertexType) (i : Z) : LocalVertexType :=
  mkLocalVertex (x p) (y p) (z p) i.

Definition position (p : LocalVertexType) : Eigen.Vector3d :=
  Eigen.Vec3 (x p) (y p) (z p).

(** Sorting operator by point value. *)
Definition ltLocalVertexValue (p1 p2 : LocalVertexType) : bool :=
  if Double.ltb (x p1) (x p2) then true
  else if Double.gtb (x p1) (x p2) then false
  else if Double.ltb (y p1) (y p2) then true
  else if Double.gtb (y p1) (y p2) then false
  else if Double.ltb (z p1) (z p2) then true
  else false.

(** Sorting operator by point index. *)
Definition ltLocalVertexIndex (p1 p2 : LocalVertexType) : bool :=
  index p1 <? index p2.
End detail.

(** ** createMeshFromVertices *)

(** State of the welding loop: the set of vertices met so far and the
    triangle indices emitted. *)
Definition WeldState : Type := StdSet.t (A := detail.LocalVertexType) * list Z.

(** One of the three blocks of the loop body: look the point up, give it a
    fresh index if it is new, and emit its index. *)
Definition weld (v : Eigen.Vector3d) (st : WeldState) : WeldState :=
  let '(vset, tris) := st in
  let vt := detail.of_vector v in
  match StdSet.find detail.ltLocalVertexValue vt vset with
  | None =>
      let vt := detail.set_index vt (UInt.of_size (StdSet.size vset)) in
      (StdSet.insert detail.ltLocalVertexValue vt vset,
       tris ++ [detail.index vt])
  | Some p => (vset, tris ++ [detail.index p])
  end.

(** [source[i]]; every index the loop forms is within range. *)
Definition at_index (source : list Eigen.Vector3d) (i : Z) : Eigen.Vector3d :=
  nth (Z.to_nat i) source Eigen.Zero.

Definition weld_body (source : list Eigen.Vector3d) (i : Z) (st : WeldState)
  : WeldState :=
  let i3 := UInt.mul i 3 in
  let st := weld (at_index source i3) st in
  let i3 := UInt.add i3 1 in
  let st := weld (at_index source i3) st in
  let i3 := UInt.add i3 1 in
  weld (at_index source i3) st.

(** The loop copying positions into [mesh->vertices], the same in both
    overloads: cells [3 * i], [3 * i + 1], [3 * i + 2] receive the
    coordinates of entry [i], the offsets computed as [unsigned int]s. *)
Definition fill_vertices {V : Type} (px py pz : V -> double) (dflt : V)
    (vt : list V) (mesh : Mesh) : Mesh :=
  for_loop (length vt)
    (fun i mesh =>
       let i3 := UInt.mul i 3 in
       let v := nth (Z.to_nat i) vt dflt in
       let a := Array.store (vertices mesh) i3 (px v) in
       let a := Array.store a (UInt.add i3 1) (py v) in
       let a := Array.store a (UInt.add i3 2) (pz v) in
       set_vertices mesh a)
    mesh.

(** [mesh->computeTriangleNormals(); mesh->computeVertexNormals();], the
    two calls that end every construction. *)
Definition finish (mesh : Mesh) : Mesh :=
  NormalComputer.computeVertexNormals (NormalComputer.computeTriangleNormals mesh).

(** [createMeshFromVertices(vertices, triangles)], the pre-indexed
    overload. *)
Definition createMeshFromVerticesTriangles
    (verts : list Eigen.Vector3d) (tris : list Z) : Mesh :=
  let nt := UInt.wrap (Z.of_nat (length tris) / 3) in
  let mesh := Mesh_new (UInt.of_size (length verts)) nt in
  let mesh := fill_vertices Eigen.x Eigen.y Eigen.z Eigen.Zero verts mesh in
  let mesh := set_triangles mesh (Array.copy tris (triangles mesh)) in
  finish mesh.

Definition not_divisible_msg : string :=
  "The number of vertices to construct a mesh from is not divisible by 3. Probably constructed triangles will not make sense.".

Definition weld_all (source : list Eigen.Vector3d) : WeldState :=
  let n := UInt.wrap (Z.of_nat (length source) / 3) in
  for_loop (Z.to_nat n) (weld_body source) (StdSet.empty, []).

(** [createMeshFromVertices(source)], the raw-triple overload; [None] is the
    [NULL] result. *)
Definition createMeshFromVertices (source : list Eigen.Vector3d)
  : Logged (option Mesh) :=
  if Z.of_nat (length source) <? 3 then ([], None)
  else
    let log :=
      if negb (Z.of_nat (length source) mod 3 =? 0)
      then [logError not_divisible_msg] else [] in
    let '(vset, tris) := weld_all source in
    (* sort our vertices *)
    let vt := std_sort detail.ltLocalVertexIndex (StdSet.elements vset) in
    (* copy the data to a mesh structure *)
    let nt := UInt.wrap (Z.of_nat (length tris) / 3) in
    let mesh := Mesh_new (UInt.of_size (length vt)) nt in
    let mesh := fill_vertices detail.x detail.y detail.z
                  (detail.of_vector Eigen.Zero) vt mesh in
    let mesh := set_triangles mesh (Array.copy tris (triangles mesh)) in
    (log, Some (finish mesh)).

(** ** The import library's scene graph (assimp)

    The types below are the parts of [aiScene] that [mesh_operations.cpp]
    reads; the two matrix operators follow the import library's headers. *)

Module Assimp.
Record aiVector3D := mkVector3D { x : float; y : float; z : float }.

Record aiMatrix4x4 := mkMatrix4x4 {
  a1 : float; a2 : float; a3 : float; a4 : float;
  b1 : float; b2 : float; b3 : float; b4 : float;
  c1 : float; c2 : float; c3 : float; c4 : float;
  d1 : float; d2 : float; d3 : float; d4 : float
}.

(** [aiMatrix4x4()], the identity. *)
Definition identity : aiMatrix4x4 :=
  let o := Float.one in let z := Float.zero in
  mkMatrix4x4 o z z z  z o z z  z z o z  z z z o.

(** A sum of four products, added left to right. *)
Definition dot4 (p1 q1 p2 q2 p3 q3 p4 q4 : float) : float :=
  Float.add (Float.add (Float.add (Float.mul p1 q1) (Float.mul p2 q2))
                       (Float.mul p3 q3))
            (Float.mul p4 q4).

(** [t *= m]: the matrix product [t * m]. *)
Definition mul (t m : aiMatrix4x4) : aiMatrix4x4 :=
  mkMatrix4x4
    (dot4 (a1 m) (a1 t) (b1 m) (a2 t) (c1 m) (a3 t) (d1 m) (a4 t))
    (dot4 (a2 m) (a1 t) (b2 m) (a2 t) (c2 m) (a3 t) (d2 m) (a4 t))
    (dot4 (a3 m) (a1 t) (b3 m) (a2 t) (c3 m) (a3 t) (d3 m) (a4 t))
    (dot4 (a4 m) (a1 t) (b4 m) (a2 t) (c4 m) (a3 t) (d4 m) (a4 t))
    (dot4 (a1 m) (b1 t) (b1 m) (b2 t) (c1 m) (b3 t) (d1 m) (b4 t))
    (dot4 (a2 m) (b1 t) (b2 m) (b2 t) (c2 m) (b3 t) (d2 m) (b4 t))
    (dot4 (a3 m) (b1 t) (b3 m) (b2 t) (c3 m) (b3 t) (d3 m) (b4 t))
    (dot4 (a4 m) (b1 t) (b4 m) (b2 t) (c4 m) (b3 t) (d4 m) (b4 t))
    (dot4 (a1 m) (c1 t) (b1 m) (c2 t) (c1 m) (c3 t) (d1 m) (c4 t))
    (dot4 (a2 m) (c1 t) (b2 m) (c2 t) (c2 m) (c3 t) (d2 m) (c4 t))
    (dot4 (a3 m) (c1 t) (b3 m) (c2 t) (c3 m) (c3 t) (d3 m) (c4 t))
    (dot4 (a4 m) (c1 t) (b4 m) (c2 t) (c4 m) (c3 t) (d4 m) (c4 t))
    (dot4 (a1 m) (d1 t) (b1 m) (d2 t) (c1 m) (d3 t) (d1 m) (d4 t))
    (dot4 (a2 m) (d1 t) (b2 m) (d2 t) (c2 m) (d3 t) (d2 m) (d4 t))
    (dot4 (a3 m) (d1 t) (b3 m) (d2 t) (c3 m) (d3 t) (d3 m) (d4 t))
    (dot4 (a4 m) (d1 t) (b4 m) (d2 t) (c4 m) (d3 t) (d4 m) (d4 t)).

(** [m * v]: the affine image of a point. *)
Definition transform (m : aiMatrix4x4) (v : aiVector3D) : aiVector3D :=
  let row (p q r s : float) : float :=
    Float.add (Float.add (Float.add (Float.mul p (x v)) (Float.mul q (y v)))
                         (Float.mul r (z v))) s in
  mkVector3D (row (a1 m) (a2 m) (a3 m) (a4 m))
             (row (b1 m) (b2 m) (b3 m) (b4 m))
             (row (c1 m) (c2 m) (c3 m) (c4 m)).

(** A translation matrix, as [aiMatrix4x4::Translation] builds it. *)
Definition Translation (tx ty tz : float) : aiMatrix4x4 :=
  let o := Float.one in let z := Float.zero in
  mkMatrix4x4 o z z tx  z o z ty  z z o tz  z z z o.

(** A face is its index list; [mNumIndices] is the length. *)
Record aiFace := mkFace { mIndices : list Z }.

Record aiMesh := mkAiMesh { mVertices : list aiVector3D; mFaces : list aiFace }.

(** A node: local transform, indices into the scene's mesh table,
    children. *)
Inductive aiNode :=
  Node (mTransformation : aiMatrix4x4) (mMeshes : list Z)
       (mChildren : list aiNode).

Record aiScene := mkScene { mMeshes : list aiMesh; mRootNode : aiNode }.

Definition HasMeshes (scene : aiScene) : bool :=
  match mMeshes scene with [] => false | _ => true end.

(** [scene->mMeshes[k]]; the importer only produces indices in range. *)
Definition mesh_at (scene : aiScene) (k : Z) : aiMesh :=
  nth (Z.to_nat k) (mMeshes scene) (mkAiMesh [] []).
End Assimp.

(** ** Scene flattening *)

Definition FlatGeometry : Type := list Eigen.Vector3d * list Z.

(** [Eigen::Vector3d(v.x * scale.x(), v.y * scale.y(), v.z * scale.z())]:
    each single-precision coordinate is promoted and multiplied in double
    precision. *)
Definition scaled (v : Assimp.aiVector3D) (scale : Eigen.Vector3d)
  : Eigen.Vector3d :=
  Eigen.Vec3 (Double.mul (Float.to_double (Assimp.x v)) (Eigen.x scale))
             (Double.mul (Float.to_double (Assimp.y v)) (Eigen.y scale))
             (Double.mul (Float.to_double (Assimp.z v)) (Eigen.z scale)).

(** The face loop: a face is kept when it has exactly three indices. *)
Definition push_face (offset : Z) (tris : list Z) (f : Assimp.aiFace)
  : list Z :=
  match Assimp.mIndices f with
  | [i0; i1; i2] =>
      tris ++ [UInt.add offset i0; UInt.add offset i1; UInt.add offset i2]
  | _ => tris
  end.

(** The body of the loop over the meshes attached to a node. *)
Definition extract_mesh (scene : Assimp.aiScene)
    (transform : Assimp.aiMatrix4x4) (scale : Eigen.Vector3d)
    (st : FlatGeometry) (k : Z) : FlatGeometry :=
  let a := Assimp.mesh_at scene k in
  let offset := UInt.of_size (length st.1) in
  let verts :=
    fold_left (fun vs v => vs ++ [scaled (Assimp.transform transform v) scale])
              (Assimp.mVertices a) st.1 in
  let tris := fold_left (push_face offset) (Assimp.mFaces a) st.2 in
  (verts, tris).

(** [extractMeshData]; the two output vectors, passed by reference in the
    source, are threaded through as [st]. *)
Fixpoint extractMeshData (scene : Assimp.aiScene) (node : Assimp.aiNode)
    (parent_transform : Assimp.aiMatrix4x4) (scale : Eigen.Vector3d)
    (st : FlatGeometry) {struct node} : FlatGeometry :=
  match node with
  | Assimp.Node mTransformation mMeshes mChildren =>
      let transform := Assimp.mul parent_transform mTransformation in
      let st := fold_left (extract_mesh scene transform scale) mMeshes st in
      fold_left (fun st child => extractMeshData scene child transform scale st)
                mChildren st
  end.

(** [createMeshFromAsset(scene, scale, resource_name)]. *)
Definition createMeshFromAssetScaled (scene : Assimp.aiScene)
    (scale : Eigen.Vector3d) (resource_name : string) : Logged (option Mesh) :=
  if negb (Assimp.HasMeshes scene) then
    ([logWarn ("Assimp reports scene in " ++ resource_name ++ " has no meshes")],
     None)
  else
    let '(verts, tris) :=
      extractMeshData scene (Assimp.mRootNode scene) Assimp.identity scale
                      ([], []) in
    match verts, tris with
    | [], _ =>
        ([logWarn ("There are no vertices in the scene " ++ resource_name)], None)
    | _, [] =>
        ([logWarn ("There are no triangles in the scene " ++ resource_name)], None)
    | _, _ => ([], Some (createMeshFromVerticesTriangles verts tris))
    end.

(** The default scale of the one-argument overloads,
    [static const Eigen::Vector3d one(1.0, 1.0, 1.0)]. *)
Definition one : Eigen.Vector3d := Eigen.Vec3 Double.one Double.one Double.one.

(** [createMeshFromAsset(scene, resource_name)]. *)
Definition createMeshFromAsset (scene : Assimp.aiScene) (resource_name : string)
  : Logged (option Mesh) :=
  createMeshFromAssetScaled scene one resource_name.

(** ** Loading from memory and from a resource

    The importer and the resource retriever are collaborators outside this
    file; the functions below are stated for any behaviour of theirs. *)

(** A byte buffer; [None] is the null pointer. *)
Definition Buffer : Type := option (list Z).

(** [resource_retriever::MemoryResource]. *)
Record MemoryResource := mkMemoryResource { data : Buffer; size : Z }.

Section Collaborators.
(** [Assimp::Importer::ReadFileFromMemory(buffer, size, flags, hint)] with
    the fixed post-processing flags; [None] when the importer reports no
    scene. *)
Context (ReadFileFromMemory : Buffer -> Z -> string -> option Assimp.aiScene).
(** [resource_retriever::Retriever::get]; [inr what] is a thrown
    [resource_retriever::Exception]. *)
Context (retriever_get : string -> MemoryResource + string).

(** [createMeshFromBinary(buffer, size, scale, assimp_hint)].  The lowered
    file extension the source derives from the hint is not passed on (the
    importer is called with [assimp_hint] itself), so it is left out. *)
Definition createMeshFromBinaryScaled (buffer : Buffer) (size : Z)
    (scale : Eigen.Vector3d) (assimp_hint : string) : Logged (option Mesh) :=
  match buffer with
  | None => ([logWarn "Cannot construct mesh from empty binary buffer"], None)
  | Some _ =>
      if size <? 1 then
        ([logWarn "Cannot construct mesh from empty binary buffer"], None)
      else
        match ReadFileFromMemory buffer size assimp_hint with
        | Some scene => createMeshFromAssetScaled scene scale assimp_hint
        | None => ([], None)
        end
  end.

(** [createMeshFromBinary(buffer, size, assimp_hint)]. *)
Definition createMeshFromBinary (buffer : Buffer) (size : Z)
    (assimp_hint : string) : Logged (option Mesh) :=
  createMeshFromBinaryScaled buffer size one assimp_hint.

(** [createMeshFromResource(resource, scale)]. *)
Definition createMeshFromResourceScaled (resource : string)
    (scale : Eigen.Vector3d) : Logged (option Mesh) :=
  match retriever_get resource with
  | inr what => ([logError what], None)
  | inl res =>
      if size res =? 0 then
        ([logWarn ("Retrieved empty mesh for resource '" ++ resource ++ "'")],
         None)
      else
        let '(log, m) :=
          createMeshFromBinaryScaled (data res) (size res) scale resource in
        match m with
        | None =>
            (log ++ [logWarn ("Assimp reports no scene in " ++ resource)], None)
        | Some _ => (log, m)
        end
  end.

(** [createMeshFromResource(resource)]. *)
Definition createMeshFromResource (resource : string) : Logged (option Mesh) :=
  createMeshFromResourceScaled resource one.
End Collaborators.

(** ** The box generator *)

(** [shapes::Box]: the three extents [size[0..2]]. *)
Record Box := mkBox { box_size : double * double * double }.

Definition tri : list Z :=
  [0; 1; 2;
   2; 3; 0;
   4; 3; 2;
   2; 6; 4;
   7; 6; 2;
   2; 1; 7;
   3; 4; 5;
   5; 0; 3;
   0; 5; 7;
   7; 1; 0;
   7; 5; 4;
   4; 6; 7].

(** [createMeshFromShape(const Box &box)]. *)
Definition createMeshFromShape (box : Box) : Mesh :=
  let x := Double.div (box_size box).1.1 Double.two in
  let y := Double.div (box_size box).1.2 Double.two in
  let z := Double.div (box_size box).2 Double.two in
  (* define vertices of box mesh *)
  let result := Mesh_new 8 12 in
  let nx := Double.opp x in let ny := Double.opp y in let nz := Double.opp z in
  let a := vertices result in
  let a := Array.store a 0 nx in
  let a := Array.store a 1 ny in
  let a := Array.store a 2 nz in

  let a := Array.store a 3 x in
  let a := Array.store a 4 ny in
  let a := Array.store a 5 nz in

  let a := Array.store a 6 x in
  let a := Array.store a 7 ny in
  let a := Array.store a 8 z in

  let a := Array.store a 9 nx in
  let a := Array.store a 10 ny in
  let a := Array.store a 11 z in

  let a := Array.store a 12 nx in
  let a := Array.store a 13 y in
  let a := Array.store a 14 z in

  let a := Array.store a 15 nx in
  let a := Array.store a 16 y in
  let a := Array.store a 17 nz in

  let a := Array.store a 18 x in
  let a := Array.store a 19 y in
  let a := Array.store a 20 z in

  let a := Array.store a 21 x in
  let a := Array.store a 22 y in
  let a := Array.store a 23 nz in
  let result := set_vertices result a in
  let result := set_triangles result (Array.copy tri (triangles result)) in
  finish result.

(** * Reference definitions

    What the specification describes, in its own terms, and the sample
    inputs used below. *)

(** A point with integer coordinates. *)
Definition pt (a b c : Z) : Eigen.Vector3d :=
  Eigen.Vec3 (Double.of_Z a) (Double.of_Z b) (Double.of_Z c).


(** The point count is small enough for every array offset [3 * i + k] the
    source forms to fit its [unsigned int] counters. *)
Definition fits (source : list Eigen.Vector3d) : Prop :=
  3 * Z.of_nat (length source) < UInt.modulus.

(** The points the welding loop reads: the first [3 * floor(count / 3)]. *)
Definition usable (source : list Eigen.Vector3d) : list Eigen.Vector3d :=
  take (3 * (length source / 3)) source.

(** The cells holding the coordinates of a list of vertices. *)
Definition coords {V : Type} (px py pz : V -> double) (vt : list V)
  : Array.array double :=
  flat_map (fun v => [Some (px v); Some (py v); Some (pz v)]) vt.

(** ** Welding as the specification words it (section 4.1) *)

Module VertexWelder.
(** Position of the first point of the table equal to [p], by
    component-wise [==]. *)
Fixpoint first_seen (p : Eigen.Vector3d) (table : list Eigen.Vector3d)
  : option nat :=
  match table with
  | [] => None
  | q :: table' =>
      if Eigen.eqb q p then Some 0%nat else S <$> first_seen p table'
  end.

(** "On a match, reuse the existing index.  Otherwise assign the next
    sequential index (equal to the current distinct-vertex count) and
    insert." *)
Definition step (st : list Eigen.Vector3d * list Z) (p : Eigen.Vector3d)
  : list Eigen.Vector3d * list Z :=
  match first_seen p st.1 with
  | Some i => (st.1, st.2 ++ [Z.of_nat i])
  | None => (st.1 ++ [p], st.2 ++ [Z.of_nat (length st.1)])
  end.

(** The distinct points in order of first discovery, and the index emitted
    for every input point. *)
Definition run (points : list Eigen.Vector3d) : list Eigen.Vector3d * list Z :=
  fold_left step points ([], []).
End VertexWelder.

(** ** Flattening as the specification words it (section 4.3) *)

(** The vertices a node and its descendants contribute, as section 4.3
    words it: pre-order, the cumulative transform of a node being the
    parent's composed with the node's own, every vertex transformed by the
    cumulative transform and then scaled component-wise. *)
Fixpoint flattened_vertices (scene : Assimp.aiScene) (node : Assimp.aiNode)
    (parent : Assimp.aiMatrix4x4) (scale : Eigen.Vector3d)
    {struct node} : list Eigen.Vector3d :=
  match node with
  | Assimp.Node local attached children =>
      let cumulative := Assimp.mul parent local in
      flat_map
        (fun k => map (fun v => scaled (Assimp.transform cumulative v) scale)
                      (Assimp.mVertices (Assimp.mesh_at scene k)))
        attached
      ++ flat_map (fun c => flattened_vertices scene c cumulative scale)
                  children
  end.

(** The indices a face contributes to the flat triangle list, as section
    4.3 words it: its three indices, offset, when it has exactly three,
    none otherwise. *)
Definition kept_face (offset : Z) (f : Assimp.aiFace) : list Z :=
  match Assimp.mIndices f with
  | [i0; i1; i2] => [UInt.add offset i0; UInt.add offset i1; UInt.add offset i2]
  | _ => []
  end.

(** The scene of the specification's example: a root with the identity
    transform and no geometry, whose only child is translated by (2,0,0)
    and holds the vertex (1,0,0). *)
Definition translated_child : Assimp.aiNode :=
  Assimp.Node (Assimp.Translation (Float.of_Z 2) Float.zero Float.zero) [0] [].

Definition two_node_scene : Assimp.aiScene :=
  Assimp.mkScene
    [Assimp.mkAiMesh [Assimp.mkVector3D (Float.of_Z 1) Float.zero Float.zero]
                     [Assimp.mkFace [0; 0; 0]]]
    (Assimp.Node Assimp.identity [] [translated_child]).

(** Uniform scaling by two, as a matrix. *)
Definition doubling : Assimp.aiMatrix4x4 :=
  let o := Float.one in let z := Float.zero in let t := Float.of_Z 2 in
  Assimp.mkMatrix4x4 t z z z  z t z z  z z t z  z z z o.

(** A root that doubles, with a child translated by (1,0,0) holding the
    origin. *)
Definition doubled_scene : Assimp.aiScene :=
  Assimp.mkScene
    [Assimp.mkAiMesh [Assimp.mkVector3D Float.zero Float.zero Float.zero] []]
    (Assimp.Node doubling []
       [Assimp.Node (Assimp.Translation Float.one Float.zero Float.zero) [0] []]).

(** A scene whose single mesh holds one triangle on a repeated corner. *)
Definition seam_scene : Assimp.aiScene :=
  let v a b c := Assimp.mkVector3D (Float.of_Z a) (Float.of_Z b) (Float.of_Z c) in
  Assimp.mkScene
    [Assimp.mkAiMesh [v 0 0 0; v 1 0 0; v 0 0 0] [Assimp.mkFace [0; 1; 2]]]
    (Assimp.Node Assimp.identity [0] []).

(** ** Well-formed scenes and index arrays *)

(** A mesh of the importer whose faces name only its own vertices. *)
Definition faces_in_range (a : Assimp.aiMesh) : Prop :=
  Forall (fun f => Forall (fun i => 0 <= i < Z.of_nat (length (Assimp.mVertices a)))
                          (Assimp.mIndices f))
         (Assimp.mFaces a).

(** Flat geometry whose indices all name a collected vertex. *)
Definition well_indexed (st : FlatGeometry) : Prop :=
  Forall (fun i => 0 <= i < Z.of_nat (length st.1)) st.2.

(** The directed edges of an index array read three entries at a time:
    triangle (a, b, c) runs a -> b -> c -> a. *)
Fixpoint directed_edges (tris : list Z) : list (Z * Z) :=
  match tris with
  | a :: b :: c :: rest => (a, b) :: (b, c) :: (c, a) :: directed_edges rest
  | _ => []
  end.

(** * Properties *)

(** ** The order of doubles *)

(** An order-preserving image of the doubles other than NaN: sign class,
    then exponent, then mantissa, the last two negated below zero. *)
Definition rank (a : double) : Z * Z * Z :=
  match a with
  | S754_nan => (0, 0, 0)
  | S754_infinity true => (-2, 0, 0)
  | S754_finite true m e => (-1, - e, Zneg m)
  | S754_zero _ => (0, 0, 0)
  | S754_finite false m e => (1, e, Zpos m)
  | S754_infinity false => (2, 0, 0)
  end.

Lemma lexico3_iff (p q : Z * Z * Z) :
  lexico p q <->
  p.1.1 < q.1.1 \/
  (p.1.1 = q.1.1 /\ (p.1.2 < q.1.2 \/ (p.1.2 = q.1.2 /\ p.2 < q.2))).
Proof.
  destruct p as [[a b] c], q as [[a' b'] c']. cbn.
  unfold lexico, prod_lexico, lexico, Z_lexico. cbn.
  split.
  - intros [[H|[H1 H2]]|[H1 H2]]; [lia| lia | inversion H1; lia].
  - intros [H|[-> [H| [-> H]]]];
      [left; left; exact H | left; right; auto | right; auto].
Qed.

(** Away from NaN, [<] on doubles is the lexicographic order of the ranks
    and [==] is their equality. *)
Lemma ltb_rank (a b : double) :
  Double.is_nan a = false -> Double.is_nan b = false ->
  (Double.ltb a b = true <-> lexico (rank a) (rank b)).
Proof.
  intros Ha Hb. rewrite lexico3_iff.
  unfold Double.ltb, SFltb, SFcompare.
  destruct a as [sa|sa| |sa ma ea], b as [sb|sb| |sb mb eb]; try discriminate;
    try destruct sa; try destruct sb; cbn;
    try (split; [discriminate|lia]); try (split; [lia|reflexivity]).
  all: rewrite ?Pos.compare_cont_spec; cbn;
    destruct (Z.compare_spec ea eb); cbn;
    try (destruct (Pos.compare_spec ma mb); cbn);
    split; try discriminate; try lia; try reflexivity.
Qed.

Lemma eqb_rank (a b : double) :
  Double.is_nan a = false -> Double.is_nan b = false ->
  (Double.eqb a b = true <-> rank a = rank b).
Proof.
  intros Ha Hb.
  unfold Double.eqb, SFeqb, SFcompare.
  destruct a as [sa|sa| |sa ma ea], b as [sb|sb| |sb mb eb]; try discriminate;
    try destruct sa; try destruct sb; cbn;
    try (split; [discriminate|congruence]); try (split; congruence).
  all: rewrite ?Pos.compare_cont_spec; cbn;
    destruct (Z.compare_spec ea eb); cbn;
    try (destruct (Pos.compare_spec ma mb); cbn);
    split; try discriminate; try congruence; try reflexivity;
    intros [= ? ?]; try lia.
Qed.

(** The sort key of a point: the ranks of its coordinates. *)
Definition vkey (p : Eigen.Vector3d)
  : (Z * Z * Z) * (Z * Z * Z) * (Z * Z * Z) :=
  (rank (Eigen.x p), rank (Eigen.y p), rank (Eigen.z p)).

Definition key (p : detail.LocalVertexType)
  : (Z * Z * Z) * (Z * Z * Z) * (Z * Z * Z) :=
  vkey (detail.position p).

Definition nan_free (p : detail.LocalVertexType) : Prop :=
  Eigen.has_nan (detail.position p) = false.

Lemma nan_free_inv p :
  nan_free p ->
  Double.is_nan (detail.x p) = false /\ Double.is_nan (detail.y p) = false /\
  Double.is_nan (detail.z p) = false.
Proof.
  unfold nan_free, Eigen.has_nan. cbn. intros H.
  apply orb_false_elim in H as [H Hz]. apply orb_false_elim in H as [Hx Hy]. auto.
Qed.

Lemma not_lexico_eq `{Lexico K} `{!TrichotomyT (@lexico K _)} (a b : K) :
  ~ lexico a b -> ~ lexico b a -> a = b.
Proof.
  intros H1 H2. destruct (trichotomyT lexico a b) as [[?|?]|?]; tauto.
Qed.

(** The welding comparator is the lexicographic order of the keys. *)
Lemma ltLocalVertexValue_key (p q : detail.LocalVertexType) :
  nan_free p -> nan_free q ->
  (detail.ltLocalVertexValue p q = true <-> lexico (key p) (key q)).
Proof.
  intros (Hpx & Hpy & Hpz)%nan_free_inv (Hqx & Hqy & Hqz)%nan_free_inv.
  unfold detail.ltLocalVertexValue, Double.gtb, key, vkey, detail.position; cbn.
  pose proof (ltb_rank _ _ Hpx Hqx) as Lx. pose proof (ltb_rank _ _ Hqx Hpx) as Gx.
  pose proof (ltb_rank _ _ Hpy Hqy) as Ly. pose proof (ltb_rank _ _ Hqy Hpy) as Gy.
  pose proof (ltb_rank _ _ Hpz Hqz) as Lz.
  unfold Double.ltb in *.
  assert (Irr : forall r : Z * Z * Z, ~ lexico r r)
    by (intros r; apply (irreflexivity lexico r)).
  assert (Asym : forall r s : Z * Z * Z, lexico r s -> lexico s r -> False).
  { intros r s H1 H2. apply (Irr r). by trans s. }
  destruct (SFltb (detail.x p) (detail.x q)) eqn:Ex.
  { split; [|done]. intros _. left. left. by apply Lx. }
  destruct (SFltb (detail.x q) (detail.x p)) eqn:Ex'.
  { split; [done|]. intros [[H|[H _]]|[H _]]; cbn in H.
    - exfalso. apply (Asym _ _ H). by apply Gx.
    - exfalso. rewrite H in Gx. apply (Irr (rank (detail.x q))). by apply Gx.
    - inversion H as [[H1 H2]]. exfalso. rewrite H1 in Gx.
      apply (Irr (rank (detail.x q))). by apply Gx. }
  assert (rank (detail.x p) = rank (detail.x q)) as Rx.
  { apply not_lexico_eq; intros H; [apply Lx in H|apply Gx in H]; congruence. }
  destruct (SFltb (detail.y p) (detail.y q)) eqn:Ey.
  { split; [|done]. intros _. left. right. cbn. split; [done|]. by apply Ly. }
  destruct (SFltb (detail.y q) (detail.y p)) eqn:Ey'.
  { split; [done|]. intros [[H|[_ H]]|[H _]]; cbn in H.
    - exfalso. rewrite Rx in H. by apply (Irr _ H).
    - exfalso. apply (Asym _ _ H). by apply Gy.
    - inversion H as [[H1 H2]]. exfalso. rewrite H2 in Gy.
      apply (Irr (rank (detail.y q))). by apply Gy. }
  assert (rank (detail.y p) = rank (detail.y q)) as Ry.
  { apply not_lexico_eq; intros H; [apply Ly in H|apply Gy in H]; congruence. }
  destruct (SFltb (detail.z p) (detail.z q)) eqn:Ez.
  { split; [|done]. intros _. right. cbn. split; [congruence|]. by apply Lz. }
  split; [done|]. intros [[H|[_ H]]|[_ H]]; cbn in H.
  - exfalso. rewrite Rx in H. by apply (Irr _ H).
  - exfalso. rewrite Ry in H. by apply (Irr _ H).
  - apply Lz in H. congruence.
Qed.

Lemma eqb_vkey (p q : Eigen.Vector3d) :
  Eigen.has_nan p = false -> Eigen.has_nan q = false ->
  (Eigen.eqb p q = true <-> vkey p = vkey q).
Proof.
  unfold Eigen.has_nan. intros Hp Hq.
  apply orb_false_elim in Hp as [Hp Hpz]. apply orb_false_elim in Hp as [Hpx Hpy].
  apply orb_false_elim in Hq as [Hq Hqz]. apply orb_false_elim in Hq as [Hqx Hqy].
  unfold Eigen.eqb, vkey. cbn.
  rewrite !andb_true_iff, !eqb_rank by done.
  split; [intros [[-> ->] ->]; done | intros [= -> -> ->]; done].
Qed.

(** ** The set, whatever the comparator *)

Section StdSetAny.
Context {A : Type} (comp : A -> A -> bool).

Lemma elements_blacken (s : StdSet.tree A) :
  StdSet.elements (StdSet.blacken s) = StdSet.elements s.
Proof. by destruct s. Qed.

(** Rebalancing moves no element out of its place in the order of
    iteration. *)
Lemma elements_rebalance_left k c (l : StdSet.tree A) (v : A) (r : StdSet.tree A) :
  StdSet.elements (StdSet.rebalance_left comp k c l v r) =
  StdSet.elements l ++ v :: StdSet.elements r.
Proof.
  unfold StdSet.rebalance_left.
  destruct l as [|[] a pv b]; try done.
  destruct (comp k pv).
  - destruct a as [|[] a1 av a2]; try done.
    destruct (StdSet.is_red r); cbn [StdSet.elements];
      rewrite ?elements_blacken, <- ?app_assoc; cbn [app];
      by rewrite <- ?app_assoc.
  - destruct b as [|[] b1 bv b2]; try done.
    destruct (StdSet.is_red r); cbn [StdSet.elements];
      rewrite ?elements_blacken, <- ?app_assoc; cbn [app];
      by rewrite <- ?app_assoc.
Qed.

Lemma elements_rebalance_right k c (l : StdSet.tree A) (v : A) (r : StdSet.tree A) :
  StdSet.elements (StdSet.rebalance_right comp k c l v r) =
  StdSet.elements l ++ v :: StdSet.elements r.
Proof.
  unfold StdSet.rebalance_right.
  destruct r as [|[] a pv b]; try done.
  destruct (comp k pv).
  - destruct a as [|[] a1 av a2]; try done.
    destruct (StdSet.is_red l); cbn [StdSet.elements];
      rewrite ?elements_blacken, <- ?app_assoc; cbn [app];
      by rewrite <- ?app_assoc.
  - destruct b as [|[] b1 bv b2]; try done.
    destruct (StdSet.is_red l); cbn [StdSet.elements];
      rewrite ?elements_blacken, <- ?app_assoc; cbn [app];
      by rewrite <- ?app_assoc.
Qed.

Lemma elements_insert_red k (s : StdSet.tree A) :
  StdSet.elements (StdSet.insert_red comp k s) ≡ₚ k :: StdSet.elements s.
Proof.
  induction s as [|c l IHl v r IHr]; cbn [StdSet.insert_red StdSet.elements];
    [done|].
  destruct (comp k v).
  - by rewrite elements_rebalance_left, IHl.
  - rewrite elements_rebalance_right, IHr.
    rewrite (Permutation_swap k v). symmetry. apply Permutation_middle.
Qed.

Lemma elements_insert_and_rebalance k (s : StdSet.tree A) :
  StdSet.elements (StdSet.insert_and_rebalance comp k s) ≡ₚ k :: StdSet.elements s.
Proof.
  unfold StdSet.insert_and_rebalance. rewrite elements_blacken.
  apply elements_insert_red.
Qed.

(** An insertion adds one element or none. *)
Lemma size_insert k (s : StdSet.tree A) :
  (StdSet.size s <= StdSet.size (StdSet.insert comp k s) <= S (StdSet.size s))%nat.
Proof.
  unfold StdSet.insert, StdSet.size.
  pose proof (Permutation_length (elements_insert_and_rebalance k s)) as Hlen.
  cbn [length] in Hlen.
  destruct (StdSet.insert_pos_pred comp k s None) as [j|]; [|lia].
  destruct (comp j k); lia.
Qed.

Lemma lower_bound_elem k (s : StdSet.tree A) y e :
  StdSet.lower_bound comp k s y = Some e ->
  y = Some e \/ (e ∈ StdSet.elements s /\ comp e k = false).
Proof.
  revert y. induction s as [|c l IHl v r IHr]; intros y; cbn; [auto|].
  destruct (comp v k) eqn:E; cbn [negb]; intros Hf.
  - destruct (IHr _ Hf) as [?|[? ?]]; [auto|]. right.
    split; [|done]. apply elem_of_app. right. by right.
  - destruct (IHl _ Hf) as [[= <-]|[? ?]]; right.
    + split; [|done]. apply elem_of_app. right. by left.
    + split; [|done]. apply elem_of_app. by left.
Qed.

Lemma find_Some_elem k (s : StdSet.tree A) e :
  StdSet.find comp k s = Some e ->
  e ∈ StdSet.elements s /\ comp e k = false /\ comp k e = false.
Proof.
  unfold StdSet.find.
  destruct (StdSet.lower_bound comp k s None) as [j|] eqn:E; [|done].
  destruct (comp k j) eqn:Ekj; [done|]. intros [= <-].
  destruct (lower_bound_elem _ _ _ _ E) as [?|[? ?]]; done.
Qed.

Lemma insert_pos_pred_elem k (s : StdSet.tree A) j0 j :
  StdSet.insert_pos_pred comp k s j0 = Some j ->
  j0 = Some j \/ (j ∈ StdSet.elements s /\ comp k j = false).
Proof.
  revert j0. induction s as [|c l IHl v r IHr]; intros j0; cbn; [auto|].
  destruct (comp k v) eqn:E; intros Hf.
  - destruct (IHl _ Hf) as [?|[? ?]]; [auto|]. right.
    split; [|done]. apply elem_of_app. by left.
  - destruct (IHr _ Hf) as [[= <-]|[? ?]]; right.
    + split; [|done]. apply elem_of_app. right. by left.
    + split; [|done]. apply elem_of_app. right. by right.
Qed.
End StdSetAny.

Lemma find_comp_ext {A : Type} (comp : A -> A -> bool) (k k' : A) (s : StdSet.tree A) :
  (forall e, comp e k' = comp e k) -> (forall e, comp k' e = comp k e) ->
  StdSet.find comp k' s = StdSet.find comp k s.
Proof.
  intros H1 H2. unfold StdSet.find.
  assert (Hlb : forall y, StdSet.lower_bound comp k' s y =
                          StdSet.lower_bound comp k s y).
  { induction s as [|c l IHl v r IHr]; intros y; cbn; [done|].
    rewrite H1. by destruct (comp v k); cbn [negb]. }
  rewrite Hlb. destruct (StdSet.lower_bound comp k s None); [|done].
  by rewrite H2.
Qed.

(** ** The set, for a comparator that is a strict total order of keys *)

Section StdSetFacts.
Context {A K : Type} `{Lexico K} `{!StrictOrder (@lexico K _)}
        `{!TrichotomyT (@lexico K _)}.
Context (comp : A -> A -> bool) (key : A -> K) (ok : A -> Prop).
Hypothesis comp_key :
  forall a b, ok a -> ok b -> (comp a b = true <-> lexico (key a) (key b)).

Definition before (a b : A) : Prop := lexico (key a) (key b).

#[local] Instance before_trans : Transitive before.
Proof. intros a b c. unfold before. apply transitivity. Qed.

Lemma sorted_middle (l1 : list A) (v : A) (l2 : list A) :
  StronglySorted before (l1 ++ v :: l2) <->
  StronglySorted before l1 /\ StronglySorted before l2 /\
  Forall (fun a => before a v) l1 /\ Forall (before v) l2.
Proof.
  rewrite StronglySorted_app, StronglySorted_cons, !Forall_forall. split.
  - intros (H12 & H1 & Hv & H2). split; [done|]. split; [done|].
    split; [|done]. intros a Ha. apply H12; [done|by left].
  - intros (H1 & H2 & H3 & H4). split; [|done].
    intros x1 x2 Hx1 [->|Hx2]%elem_of_cons; [by apply H3|].
    trans v; [by apply H3|by apply H4].
Qed.

(** In a tree whose elements are in order, a key found nowhere is found
    by neither search. *)
Lemma lower_bound_absent k (s : StdSet.tree A) y :
  ok k -> Forall ok (StdSet.elements s) ->
  StronglySorted before (StdSet.elements s) ->
  (forall e, e ∈ StdSet.elements s -> key e <> key k) ->
  (StdSet.lower_bound comp k s y = y \/
   exists j, StdSet.lower_bound comp k s y = Some j /\
             j ∈ StdSet.elements s /\ comp k j = true).
Proof using comp_key StrictOrder0 TrichotomyT0.
  intros Hk. revert y.
  induction s as [|c l IHl v r IHr]; intros y Hok Hs Hne; cbn; [auto|].
  cbn [StdSet.elements] in Hok, Hs, Hne.
  apply Forall_app in Hok as [Hokl Hokr]. apply Forall_cons in Hokr as [Hv Hokr].
  apply sorted_middle in Hs as (Hsl & Hsr & Hlv & Hvr).
  destruct (comp v k) eqn:E; cbn [negb].
  - destruct (IHr y Hokr Hsr) as [?|(j & ? & ? & ?)].
    { intros e He. apply Hne, elem_of_app. right. by right. }
    + by left.
    + right. exists j. split; [done|]. split; [|done].
      apply elem_of_app. right. by right.
  - assert (Hkv : comp k v = true).
    { apply comp_key; [done..|].
      destruct (trichotomyT lexico (key k) (key v)) as [[?|Heq]|Hlt]; [done| |].
      - exfalso. apply (Hne v); [|done]. apply elem_of_app. right. by left.
      - apply comp_key in Hlt; [congruence|done..]. }
    right. destruct (IHl (Some v) Hokl Hsl) as [Hy|(j & ? & ? & ?)].
    { intros e He. apply Hne, elem_of_app. by left. }
    + exists v. split; [done|]. split; [|done]. apply elem_of_app. right. by left.
    + exists j. split; [done|]. split; [|done]. apply elem_of_app. by left.
Qed.

Lemma lower_bound_present k (s : StdSet.tree A) y e :
  ok k -> Forall ok (StdSet.elements s) ->
  StronglySorted before (StdSet.elements s) ->
  e ∈ StdSet.elements s -> key e = key k ->
  StdSet.lower_bound comp k s y = Some e.
Proof using comp_key StrictOrder0 TrichotomyT0.
  intros Hk. revert y.
  assert (Irr : forall x : K, ~ lexico x x) by (intros x; apply irreflexivity, _).
  induction s as [|c l IHl v r IHr]; intros y Hok Hs He Hkey; cbn; [by inv He|].
  cbn [StdSet.elements] in Hok, Hs, He.
  apply Forall_app in Hok as [Hokl Hokr]. apply Forall_cons in Hokr as [Hv Hokr].
  apply sorted_middle in Hs as (Hsl & Hsr & Hlv & Hvr).
  rewrite Forall_forall in Hlv, Hvr.
  apply elem_of_app in He as [He|He]; [|apply elem_of_cons in He as [->|He]].
  - (* in the left subtree: v is after e, so not before k *)
    assert (comp v k = false) as ->.
    { destruct (comp v k) eqn:E; [|done]. apply comp_key in E; [|done..].
      exfalso. specialize (Hlv _ He). unfold before in Hlv. rewrite Hkey in Hlv.
      apply (Irr (key k)). by trans (key v). }
    cbn [negb]. by apply IHl.
  - assert (comp v k = false) as ->.
    { destruct (comp v k) eqn:E; [|done]. apply comp_key in E; [|done..].
      rewrite Hkey in E. by apply Irr in E. }
    cbn [negb].
    destruct (lower_bound_absent k l (Some v) Hk Hokl Hsl)
      as [->|(j & Hj & Hin & Hkj)]; [|done|].
    { intros e He Heq. specialize (Hlv _ He). unfold before in Hlv.
      rewrite Heq, <- Hkey in Hlv. by apply Irr in Hlv. }
    exfalso. apply comp_key in Hkj; [|done|by eapply (proj1 (Forall_forall _ _) Hokl)].
    specialize (Hlv _ Hin). unfold before in Hlv. rewrite Hkey in Hlv.
    apply (Irr (key k)). by trans (key j).
  - assert (comp v k = true) as ->.
    { apply comp_key; [done..|]. rewrite <- Hkey. by apply Hvr. }
    cbn [negb]. by apply IHr.
Qed.

Lemma find_Some_key k (s : StdSet.tree A) e :
  ok k -> Forall ok (StdSet.elements s) -> StdSet.find comp k s = Some e ->
  e ∈ StdSet.elements s /\ key e = key k.
Proof using comp_key StrictOrder0 TrichotomyT0.
  intros Hk Hs Hf. destruct (find_Some_elem _ _ _ _ Hf) as (He & H1 & H2).
  split; [done|]. rewrite Forall_forall in Hs. specialize (Hs _ He).
  apply not_lexico_eq; intros Hl; apply comp_key in Hl; congruence.
Qed.

Lemma find_None_key k (s : StdSet.tree A) :
  ok k -> Forall ok (StdSet.elements s) ->
  StronglySorted before (StdSet.elements s) ->
  StdSet.find comp k s = None ->
  forall e, e ∈ StdSet.elements s -> key e <> key k.
Proof using comp_key StrictOrder0 TrichotomyT0.
  intros Hk Hok Hs Hf e He Hkey.
  unfold StdSet.find in Hf.
  rewrite (lower_bound_present k s None e) in Hf by done.
  destruct (comp k e) eqn:E; [|done].
  apply comp_key in E; [|done|by eapply (proj1 (Forall_forall _ _) Hok)].
  rewrite Hkey in E. by apply (irreflexivity lexico) in E.
Qed.

(** A key found nowhere is inserted. *)
Lemma insert_absent k (s : StdSet.tree A) :
  ok k -> Forall ok (StdSet.elements s) ->
  (forall e, e ∈ StdSet.elements s -> key e <> key k) ->
  StdSet.insert comp k s = StdSet.insert_and_rebalance comp k s.
Proof using comp_key StrictOrder0 TrichotomyT0.
  intros Hk Hok Hne. unfold StdSet.insert.
  destruct (StdSet.insert_pos_pred comp k s None) as [j|] eqn:E; [|done].
  destruct (insert_pos_pred_elem _ _ _ _ _ E) as [?|[Hj Hkj]]; [done|].
  assert (comp j k = true) as ->; [|done].
  rewrite Forall_forall in Hok.
  apply comp_key; [by apply Hok|done|].
  destruct (trichotomyT lexico (key j) (key k)) as [[?|Heq]|Hlt]; [done| |].
  - by destruct (Hne j).
  - apply comp_key in Hlt; [congruence|done|by apply Hok].
Qed.

Lemma insert_red_sorted k (s : StdSet.tree A) :
  ok k -> Forall ok (StdSet.elements s) ->
  StronglySorted before (StdSet.elements s) ->
  (forall e, e ∈ StdSet.elements s -> key e <> key k) ->
  StronglySorted before (StdSet.elements (StdSet.insert_red comp k s)).
Proof using comp_key StrictOrder0 TrichotomyT0.
  intros Hk.
  induction s as [|c l IHl v r IHr]; intros Hok Hs Hne;
    cbn [StdSet.insert_red StdSet.elements] in *.
  { repeat constructor. }
  apply Forall_app in Hok as [Hokl Hokr]. apply Forall_cons in Hokr as [Hv Hokr].
  apply sorted_middle in Hs as (Hsl & Hsr & Hlv & Hvr).
  destruct (comp k v) eqn:E.
  - rewrite elements_rebalance_left. apply sorted_middle.
    split; [|split; [done|split; [|done]]].
    + apply IHl; [done..|]. intros e He. apply Hne, elem_of_app. by left.
    + rewrite elements_insert_red. constructor; [|done]. by apply comp_key.
  - rewrite elements_rebalance_right. apply sorted_middle.
    split; [done|]. split; [|split; [done|]].
    + apply IHr; [done..|]. intros e He. apply Hne, elem_of_app. right. by right.
    + rewrite elements_insert_red. constructor; [|done].
      destruct (trichotomyT lexico (key v) (key k)) as [[?|Heq]|Hlt]; [done| |].
      * exfalso. apply (Hne v); [|done]. apply elem_of_app. right. by left.
      * apply comp_key in Hlt; [congruence|done..].
Qed.

Lemma insert_fresh_perm k (s : StdSet.tree A) :
  ok k -> Forall ok (StdSet.elements s) ->
  StronglySorted before (StdSet.elements s) ->
  StdSet.find comp k s = None ->
  StdSet.elements (StdSet.insert comp k s) ≡ₚ k :: StdSet.elements s.
Proof using comp_key StrictOrder0 TrichotomyT0.
  intros Hk Hok Hs Hf.
  rewrite insert_absent; [apply elements_insert_and_rebalance|done..|].
  by apply find_None_key.
Qed.

Lemma insert_fresh_sorted k (s : StdSet.tree A) :
  ok k -> Forall ok (StdSet.elements s) ->
  StronglySorted before (StdSet.elements s) ->
  StdSet.find comp k s = None ->
  StronglySorted before (StdSet.elements (StdSet.insert comp k s)).
Proof using comp_key StrictOrder0 TrichotomyT0.
  intros Hk Hok Hs Hf.
  pose proof (find_None_key k s Hk Hok Hs Hf) as Hne.
  rewrite insert_absent by done.
  unfold StdSet.insert_and_rebalance. rewrite elements_blacken.
  by apply insert_red_sorted.
Qed.
End StdSetFacts.

(** The record the welding loop stores for the [i]-th distinct point. *)
Definition tag (i : nat) (p : Eigen.Vector3d) : detail.LocalVertexType :=
  detail.set_index (detail.of_vector p) (Z.of_nat i).

Definition tagged (table : list Eigen.Vector3d) : list detail.LocalVertexType :=
  imap tag table.

(** The loop invariant tying the state of the source's loop to the state of
    [VertexWelder.step]. *)
Record welded (st : WeldState) (sp : list Eigen.Vector3d * list Z) : Prop := {
  welded_indices : st.2 = sp.2;
  welded_perm : StdSet.elements st.1 ≡ₚ tagged sp.1;
  welded_sorted : StronglySorted (before key) (StdSet.elements st.1);
  welded_distinct : NoDup (map vkey sp.1);
  welded_nan_free : Forall (fun p => Eigen.has_nan p = false) sp.1
}.

Lemma first_seen_hit p table i q :
  Forall (fun p => Eigen.has_nan p = false) table -> Eigen.has_nan p = false ->
  NoDup (map vkey table) -> table !! i = Some q -> vkey q = vkey p ->
  VertexWelder.first_seen p table = Some i.
Proof.
  intros Hnan Hp. revert i.
  induction table as [|q0 table IH]; intros i Hnd Hi Hk; [done|].
  apply Forall_cons in Hnan as [Hq0 Hnan]. apply NoDup_cons in Hnd as [Hnotin Hnd].
  cbn. destruct i as [|i]; cbn in Hi.
  - injection Hi as ->. apply eqb_vkey in Hk; [|done..]. by rewrite Hk.
  - destruct (Eigen.eqb q0 p) eqn:E.
    + apply eqb_vkey in E; [|done..]. exfalso. apply Hnotin.
      rewrite E, <- Hk. apply list_elem_of_fmap. exists q. split; [done|].
      by eapply list_elem_of_lookup_2.
    + by rewrite (IH Hnan i Hnd Hi Hk).
Qed.

Lemma first_seen_miss p table :
  Forall (fun p => Eigen.has_nan p = false) table -> Eigen.has_nan p = false ->
  (forall q, q ∈ table -> vkey q <> vkey p) ->
  VertexWelder.first_seen p table = None.
Proof.
  intros Hnan Hp. induction table as [|q0 table IH]; intros Hall; [done|].
  apply Forall_cons in Hnan as [Hq0 Hnan]. cbn.
  destruct (Eigen.eqb q0 p) eqn:E.
  - apply eqb_vkey in E; [|done..]. exfalso. apply (Hall q0); [by left|done].
  - rewrite IH; [done|done|]. intros q Hq. apply Hall. by right.
Qed.

Lemma elem_of_tagged e table :
  e ∈ tagged table <-> exists i q, table !! i = Some q /\ e = tag i q.
Proof.
  unfold tagged. rewrite list_elem_of_lookup. split.
  - intros [i Hi]. rewrite list_lookup_imap in Hi.
    destruct (table !! i) as [q|] eqn:E; [|done]. cbn in Hi. injection Hi as <-. eauto.
  - intros (i & q & Hi & ->). exists i. by rewrite list_lookup_imap, Hi.
Qed.

Lemma tagged_snoc table p :
  tagged (table ++ [p]) = tagged table ++ [tag (length table) p].
Proof.
  unfold tagged. rewrite imap_app. cbn. by rewrite Nat.add_0_r.
Qed.

Lemma index_tag i q : detail.index (tag i q) = Z.of_nat i.
Proof. reflexivity. Qed.

Lemma key_tag i q : key (tag i q) = vkey q.
Proof. reflexivity. Qed.

Lemma nan_free_tag i q : nan_free (tag i q) <-> Eigen.has_nan q = false.
Proof. reflexivity. Qed.

Lemma tagged_nan_free table :
  Forall (fun p => Eigen.has_nan p = false) table -> Forall nan_free (tagged table).
Proof.
  rewrite !Forall_forall. intros H e (i & q & Hi & ->)%elem_of_tagged.
  apply nan_free_tag, H. by eapply list_elem_of_lookup_2.
Qed.

Lemma find_tag i p vset :
  StdSet.find detail.ltLocalVertexValue (tag i p) vset =
  StdSet.find detail.ltLocalVertexValue (detail.of_vector p) vset.
Proof. by apply find_comp_ext. Qed.

(** One step of the source's loop refines one step of the welder. *)
Lemma weld_step st sp p :
  welded st sp -> Eigen.has_nan p = false ->
  Z.of_nat (length sp.1) < UInt.modulus ->
  welded (weld p st) (VertexWelder.step sp p).
Proof.
  intros [Hidx Hperm Hsort Hnd Hnan] Hp Hlen.
  destruct st as [vset tris], sp as [table idx]. cbn [fst snd] in *. subst idx.
  assert (Hok : Forall nan_free (StdSet.elements vset)).
  { rewrite Hperm. by apply tagged_nan_free. }
  assert (Hvt : nan_free (detail.of_vector p)) by exact Hp.
  unfold weld, VertexWelder.step. cbn [fst snd]. cbv zeta.
  destruct (StdSet.find detail.ltLocalVertexValue (detail.of_vector p) vset)
    as [e|] eqn:Hfind.
  - destruct (find_Some_key _ key nan_free ltLocalVertexValue_key _ _ _ Hvt Hok Hfind)
      as [He Hkey].
    rewrite Hperm in He. apply elem_of_tagged in He as (i & q & Hi & ->).
    rewrite (first_seen_hit p table i q); [|done..].
    by constructor.
  - pose proof (find_None_key _ key nan_free ltLocalVertexValue_key _ _ Hvt Hok Hsort Hfind)
      as Hfresh.
    assert (Hmiss : forall q, q ∈ table -> vkey q <> vkey p).
    { intros q Hq. apply list_elem_of_lookup in Hq as [i Hi].
      apply (Hfresh (tag i q)). rewrite Hperm. apply elem_of_tagged. eauto. }
    rewrite first_seen_miss; [|done..].
    assert (Hsize : UInt.of_size (StdSet.size vset) = Z.of_nat (length table)).
    { unfold UInt.of_size, StdSet.size, UInt.wrap. rewrite Hperm.
      unfold tagged. rewrite length_imap. apply Z.mod_small. lia. }
    rewrite Hsize. fold (tag (length table) p).
    rewrite <- (find_tag (length table)) in Hfind.
    assert (Htag : nan_free (tag (length table) p)) by exact Hp.
    constructor; cbn [fst snd].
    + done.
    + rewrite tagged_snoc.
      rewrite (insert_fresh_perm detail.ltLocalVertexValue key nan_free
                 ltLocalVertexValue_key _ _ Htag Hok Hsort Hfind).
      rewrite Hperm. apply Permutation_cons_append.
    + by apply (insert_fresh_sorted detail.ltLocalVertexValue key nan_free
                  ltLocalVertexValue_key).
    + rewrite fmap_app. apply NoDup_app. split; [done|]. split.
      * intros k (q & -> & Hq)%list_elem_of_fmap Hk.
        apply list_elem_of_singleton in Hk. by apply (Hmiss q Hq).
      * apply NoDup_singleton.
    + apply Forall_app. split; [done|]. by constructor.
Qed.

(** ** The loops *)

Lemma for_loop_S {S : Type} (n : nat) (body : Z -> S -> S) (s : S) :
  for_loop (Datatypes.S n) body s = body (UInt.of_size n) (for_loop n body s).
Proof.
  unfold for_loop. rewrite seq_S, fold_left_app. reflexivity.
Qed.

(** Below [2^32] the [unsigned int] operations are the integer ones. *)
Lemma wrap_small (z : Z) : 0 <= z < UInt.modulus -> UInt.wrap z = z.
Proof. apply Z.mod_small. Qed.

Lemma of_size_small (n : nat) :
  Z.of_nat n < UInt.modulus -> UInt.of_size n = Z.of_nat n.
Proof. intros H. apply wrap_small. lia. Qed.

Lemma add_small (a b : Z) : 0 <= a + b < UInt.modulus -> UInt.add a b = a + b.
Proof. apply wrap_small. Qed.

Lemma mul_small (a b : Z) : 0 <= a * b < UInt.modulus -> UInt.mul a b = a * b.
Proof. apply wrap_small. Qed.

(** Rewrites the counters of a loop that stays below [2^32]. *)
Ltac no_overflow :=
  repeat match goal with
  | |- context [UInt.of_size ?n] =>
      rewrite (of_size_small n) by (unfold UInt.modulus in *; lia)
  | |- context [UInt.mul ?a ?b] =>
      rewrite (mul_small a b) by (unfold UInt.modulus in *; lia)
  | |- context [UInt.add ?a ?b] =>
      rewrite (add_small a b) by (unfold UInt.modulus in *; lia)
  end.

Lemma take_S_nth {A : Type} (l : list A) (i : nat) (d : A) :
  (i < length l)%nat -> take (S i) l = take i l ++ [nth i l d].
Proof.
  intros Hi. destruct (lookup_lt_is_Some_2 l i Hi) as [a Ha].
  rewrite (take_S_r l i a Ha). by rewrite (nth_lookup_Some l i d a Ha).
Qed.

(** [k] iterations of the loop weld the first [3 * k] points in order. *)
Lemma weld_iterations source (k : nat) :
  Z.of_nat (length source) < UInt.modulus ->
  (3 * k <= length source)%nat ->
  for_loop k (weld_body source) (StdSet.empty, []) =
  fold_left (fun st p => weld p st) (take (3 * k) source) (StdSet.empty, []).
Proof.
  intros Hlen. induction k as [|k IH]; intros Hk; [done|].
  rewrite for_loop_S, IH by lia.
  replace (3 * S k)%nat with (S (S (S (3 * k)))) by lia.
  rewrite (take_S_nth source (S (S (3 * k))) Eigen.Zero) by lia.
  rewrite (take_S_nth source (S (3 * k)) Eigen.Zero) by lia.
  rewrite (take_S_nth source (3 * k) Eigen.Zero) by lia.
  rewrite !fold_left_app. cbn [fold_left].
  unfold weld_body, at_index. no_overflow.
  replace (Z.to_nat (Z.of_nat k * 3)) with (3 * k)%nat by lia.
  replace (Z.to_nat (Z.of_nat k * 3 + 1)) with (S (3 * k)) by lia.
  replace (Z.to_nat (Z.of_nat k * 3 + 1 + 1)) with (S (S (3 * k))) by lia.
  reflexivity.
Qed.

Lemma weld_all_usable source :
  Z.of_nat (length source) < UInt.modulus ->
  weld_all source = fold_left (fun st p => weld p st) (usable source) (StdSet.empty, []).
Proof.
  intros Hlen. unfold weld_all, usable.
  assert (Hn : Z.to_nat (UInt.wrap (Z.of_nat (length source) / 3)) =
               (length source / 3)%nat).
  { unfold UInt.wrap. rewrite Z.mod_small.
    - rewrite <- (Nat2Z.id (length source / 3)). f_equal.
      by rewrite Nat2Z.inj_div.
    - split; [apply Z.div_pos; lia|].
      apply Z.le_lt_trans with (Z.of_nat (length source)); [|done].
      apply Z.div_le_upper_bound; lia. }
  rewrite Hn. apply weld_iterations; [done|].
  apply Nat.Div0.mul_div_le.
Qed.

(** Every read [source[i3]] of the welding loop is within the sequence,
    whatever its length. *)
Lemma weld_body_reads_in_range (source : list Eigen.Vector3d) (i : Z) :
  0 <= i < UInt.wrap (Z.of_nat (length source) / 3) ->
  let i3 := UInt.mul i 3 in
  0 <= i3 < Z.of_nat (length source) /\
  0 <= UInt.add i3 1 < Z.of_nat (length source) /\
  0 <= UInt.add (UInt.add i3 1) 1 < Z.of_nat (length source).
Proof.
  intros Hi. cbv zeta. unfold UInt.mul, UInt.add, UInt.wrap, UInt.modulus in *.
  set (len := Z.of_nat (length source)) in *.
  assert (Hlen : 0 <= len) by (unfold len; lia).
  assert (Hq : 3 * (len / 3) <= len) by (apply Z.mul_div_le; lia).
  pose proof (Z.mod_pos_bound (len / 3) (2 ^ 32) ltac:(lia)) as Hn.
  pose proof (Z.mod_le (len / 3) (2 ^ 32) ltac:(apply Z.div_pos; lia) ltac:(lia))
    as Hle.
  pose proof (Z.mod_pos_bound (i * 3) (2 ^ 32) ltac:(lia)) as H0.
  pose proof (Z.mod_pos_bound ((i * 3) mod 2 ^ 32 + 1) (2 ^ 32) ltac:(lia)) as H1.
  pose proof (Z.mod_pos_bound (((i * 3) mod 2 ^ 32 + 1) mod 2 ^ 32 + 1) (2 ^ 32)
                ltac:(lia)) as H2.
  destruct (Z.lt_ge_cases len (2 ^ 32)) as [Hsmall|Hbig]; [|lia].
  rewrite (Z.mod_small (i * 3)) by lia.
  rewrite (Z.mod_small (i * 3 + 1)) by lia.
  rewrite (Z.mod_small (i * 3 + 1 + 1)) by lia. lia.
Qed.

Lemma welded_run points st :
  Forall (fun p => Eigen.has_nan p = false) points ->
  Z.of_nat (length points) < UInt.modulus ->
  st = fold_left (fun st p => weld p st) points (StdSet.empty, []) ->
  welded st (VertexWelder.run points) /\
  (length (VertexWelder.run points).1 <= length points)%nat.
Proof.
  intros Hnan Hlen ->. unfold VertexWelder.run.
  induction points as [|p points IH] using rev_ind.
  { split; [|done]. constructor; cbn; try done; constructor. }
  apply Forall_app in Hnan as [Hnan Hp]. apply Forall_cons in Hp as [Hp _].
  rewrite length_app in Hlen |- *. cbn in Hlen |- *.
  destruct IH as [IH IHlen]; [done|lia|].
  rewrite !fold_left_app. cbn [fold_left].
  set (sp := fold_left VertexWelder.step points ([], [])) in *.
  split.
  - apply weld_step; [done|done|lia].
  - unfold VertexWelder.step.
    destruct (VertexWelder.first_seen p sp.1); cbn [fst]; [lia|].
    rewrite length_app. cbn [length]. lia.
Qed.

(** ** Sorting the set by index *)

Definition index_le (a b : detail.LocalVertexType) : Prop :=
  detail.ltLocalVertexIndex b a = false.

Lemma index_le_iff a b : index_le a b <-> detail.index a <= detail.index b.
Proof. unfold index_le, detail.ltLocalVertexIndex. apply Z.ltb_ge. Qed.

#[local] Instance index_le_trans : Transitive index_le.
Proof. intros a b c. rewrite !index_le_iff. lia. Qed.

#[local] Instance index_le_total : Total index_le.
Proof. intros a b. rewrite !index_le_iff. lia. Qed.

Lemma imap_sorted {A B : Type} (R : relation B) (f : nat -> A -> B) (l : list A) :
  (forall i j x y, (i < j)%nat -> R (f i x) (f j y)) ->
  StronglySorted R (imap f l).
Proof.
  revert f. induction l as [|a l IH]; intros f Hf; cbn; constructor.
  - apply IH. intros i j x y Hij. apply Hf. lia.
  - apply Forall_forall. intros b Hb.
    apply list_elem_of_lookup in Hb as [j Hj]. rewrite list_lookup_imap in Hj.
    destruct (l !! j) as [y|]; [|done]. cbn in Hj. injection Hj as <-.
    apply Hf. lia.
Qed.

(** Sorting the set by index gives back the table in discovery order. *)
Lemma sort_tagged (vset : StdSet.tree detail.LocalVertexType) table :
  StdSet.elements vset ≡ₚ tagged table ->
  std_sort detail.ltLocalVertexIndex (StdSet.elements vset) = tagged table.
Proof.
  intros Hperm. unfold std_sort.
  apply (StronglySorted_unique_strong index_le).
  - intros e1 e2 H1 H2 Hle Hge.
    rewrite merge_sort_Permutation, Hperm in H1.
    apply elem_of_tagged in H1 as (i1 & q1 & Hq1 & ->).
    apply elem_of_tagged in H2 as (i2 & q2 & Hq2 & ->).
    apply index_le_iff in Hle, Hge. cbn in Hle, Hge.
    assert (i1 = i2) as -> by lia. congruence.
  - apply (StronglySorted_merge_sort index_le).
  - apply imap_sorted. intros i j x y Hij. apply index_le_iff. cbn. lia.
  - by rewrite merge_sort_Permutation.
Qed.

(** ** Filling the arrays *)

Lemma length_coords {V : Type} (px py pz : V -> double) (vt : list V) :
  length (coords px py pz vt) = (3 * length vt)%nat.
Proof. unfold coords. induction vt as [|v vt IH]; cbn; [done|]. rewrite IH. lia. Qed.

Lemma coords_snoc {V : Type} (px py pz : V -> double) (vt : list V) (v : V) :
  coords px py pz (vt ++ [v]) =
  coords px py pz vt ++ [Some (px v); Some (py v); Some (pz v)].
Proof. unfold coords. rewrite flat_map_app. reflexivity. Qed.

Lemma store3_fresh {A : Type} (pre : Array.array A) (n : nat) (u v w : A) (i : Z) :
  i = Z.of_nat (length pre) ->
  Array.store (Array.store (Array.store (pre ++ replicate (3 * S n) None) i u)
                           (i + 1) v) (i + 2) w =
  (pre ++ [Some u; Some v; Some w]) ++ replicate (3 * n) None.
Proof.
  intros ->. unfold Array.store.
  replace (Z.to_nat (Z.of_nat (length pre))) with (length pre + 0)%nat by lia.
  replace (Z.to_nat (Z.of_nat (length pre) + 1)) with (length pre + 1)%nat by lia.
  replace (Z.to_nat (Z.of_nat (length pre) + 2)) with (length pre + 2)%nat by lia.
  replace (3 * S n)%nat with (S (S (S (3 * n)))) by lia.
  rewrite !insert_app_r. cbn. by rewrite <- app_assoc.
Qed.

Lemma fill_vertices_iterations {V : Type} (px py pz : V -> double) (d : V)
    (vt : list V) (mesh : Mesh) (k : nat) :
  3 * Z.of_nat (length vt) < UInt.modulus ->
  (k <= length vt)%nat ->
  vertices mesh = replicate (3 * length vt) None ->
  for_loop k
    (fun i mesh =>
       let i3 := UInt.mul i 3 in
       let v := nth (Z.to_nat i) vt d in
       let a := Array.store (vertices mesh) i3 (px v) in
       let a := Array.store a (UInt.add i3 1) (py v) in
       let a := Array.store a (UInt.add i3 2) (pz v) in
       set_vertices mesh a)
    mesh =
  set_vertices mesh
    (coords px py pz (take k vt) ++ replicate (3 * (length vt - k)) None).
Proof.
  intros Hfit. induction k as [|k IH]; intros Hk Hv.
  { unfold for_loop. cbn [seq fold_left take coords flat_map app].
    rewrite Nat.sub_0_r, <- Hv. by destruct mesh. }
  rewrite for_loop_S, IH by (done || lia). cbn zeta.
  rewrite of_size_small by (unfold UInt.modulus in *; lia).
  rewrite Nat2Z.id. cbn [vertices set_vertices].
  replace (length vt - k)%nat with (S (length vt - S k)) by lia.
  no_overflow. rewrite store3_fresh.
  - rewrite (take_S_nth vt k d) by lia. rewrite coords_snoc. reflexivity.
  - rewrite length_coords, length_take. lia.
Qed.

Lemma fill_vertices_coords {V : Type} (px py pz : V -> double) (d : V)
    (vt : list V) (mesh : Mesh) :
  3 * Z.of_nat (length vt) < UInt.modulus ->
  vertices mesh = replicate (3 * length vt) None ->
  fill_vertices px py pz d vt mesh = set_vertices mesh (coords px py pz vt).
Proof.
  intros Hfit Hv. unfold fill_vertices.
  etransitivity;
    [apply (fill_vertices_iterations px py pz d vt mesh (length vt)); done|].
  rewrite firstn_all, Nat.sub_diag, Nat.mul_0_r. cbn [replicate].
  by rewrite app_nil_r.
Qed.

Lemma copy_onto {A : Type} (src : list A) (pre rest : Array.array A) (o : nat) :
  o = length pre -> (length src <= length rest)%nat ->
  fold_left (fun a (kv : nat * A) => <[kv.1 := Some kv.2]> a)
            (zip (seq o (length src)) src) (pre ++ rest) =
  pre ++ map Some src ++ drop (length src) rest.
Proof.
  revert pre rest o. induction src as [|x src IH]; intros pre rest o Ho Hlen.
  { cbn. by rewrite drop_0. }
  destruct rest as [|r rest]; cbn in Hlen; [lia|].
  cbn [length seq zip zip_with fold_left fst snd]. subst o.
  replace (<[length pre:=Some x]> (pre ++ r :: rest))
    with ((pre ++ [Some x]) ++ rest).
  - rewrite (IH (pre ++ [Some x]) rest (S (length pre))).
    + by rewrite <- app_assoc.
    + rewrite length_app. cbn. lia.
    + lia.
  - rewrite insert_app_r_alt, Nat.sub_diag by lia. cbn. by rewrite <- app_assoc.
Qed.

Lemma copy_all {A : Type} (src : list A) (n : Z) :
  n = Z.of_nat (length src) ->
  Array.copy src (Array.new A n) = map Some src.
Proof.
  intros ->. unfold Array.copy, Array.new. rewrite Nat2Z.id.
  etransitivity;
    [apply (copy_onto src [] (replicate (length src) None) 0);
     [done | by rewrite length_replicate]|].
  rewrite drop_ge by (rewrite length_replicate; lia). cbn [app].
  by rewrite app_nil_r.
Qed.

(** ** The set grows by at most one element per point *)

Record in_bounds (st : WeldState) (processed : nat) : Prop := {
  bounds_size : (StdSet.size st.1 <= processed)%nat;
  bounds_nonempty : (0 < processed)%nat -> (0 < StdSet.size st.1)%nat;
  bounds_emitted : length st.2 = processed
}.

Lemma weld_in_bounds st n p :
  in_bounds st n -> in_bounds (weld p st) (S n).
Proof.
  intros [Hsize Hne Hem]. destruct st as [vset tris]. cbn [fst snd] in *.
  unfold weld.
  destruct (StdSet.find detail.ltLocalVertexValue (detail.of_vector p) vset)
    as [e|] eqn:Hfind.
  - apply find_Some_elem in Hfind as [He _].
    constructor; cbn [fst snd]; [lia| |rewrite length_app; cbn; lia].
    intros _. unfold StdSet.size.
    destruct (StdSet.elements vset); [by inv He|cbn; lia].
  - cbv zeta.
    set (vt := detail.set_index (detail.of_vector p)
                 (UInt.of_size (StdSet.size vset))).
    pose proof (size_insert detail.ltLocalVertexValue vt vset) as Hgrow.
    constructor; cbn [fst snd]; [lia| |rewrite length_app; cbn; lia].
    intros _. destruct n as [|n]; [|specialize (Hne ltac:(lia)); lia].
    assert (vset = StdSet.Leaf) as ->.
    { unfold StdSet.size in Hsize. destruct vset as [|c l v r]; [done|].
      cbn [StdSet.elements] in Hsize. rewrite length_app in Hsize.
      cbn [length] in Hsize. lia. }
    cbn. lia.
Qed.

Lemma fold_weld_in_bounds points :
  in_bounds (fold_left (fun st p => weld p st) points (StdSet.empty, []))
            (length points).
Proof.
  induction points as [|p points IH] using rev_ind.
  { constructor; cbn; [lia|lia|done]. }
  rewrite length_app. cbn [length].
  rewrite fold_left_app. cbn [fold_left].
  replace (length points + 1)%nat with (S (length points)) by lia.
  by apply weld_in_bounds.
Qed.

Lemma length_usable source :
  length (usable source) = (3 * (length source / 3))%nat.
Proof.
  unfold usable. rewrite length_take. apply Nat.min_l, Nat.Div0.mul_div_le.
Qed.

(** The mesh as it stands when the normals are about to be computed. *)
Definition assembled (cells : list (option double)) (N M : Z) (tris : list Z)
  : Mesh :=
  mkMesh N M cells (map Some tris) (Array.new double (3 * M))
         (Array.new double (3 * N)).

(** The mesh of the raw-triple entry point: the welded vertices sorted by
    index, one triangle per triple of usable points. *)
Lemma createMeshFromVertices_assembled source :
  3 <= Z.of_nat (length source) -> fits source ->
  let st := fold_left (fun st p => weld p st) (usable source) (StdSet.empty, []) in
  let vt := std_sort detail.ltLocalVertexIndex (StdSet.elements st.1) in
  (createMeshFromVertices source).2 =
  Some (finish (assembled (coords detail.x detail.y detail.z vt)
                          (Z.of_nat (length vt))
                          (Z.of_nat (length source / 3)) st.2)).
Proof.
  intros H3 Hfit st vt. unfold fits, UInt.modulus in Hfit.
  unfold createMeshFromVertices.
  destruct (Z.ltb_spec (Z.of_nat (length source)) 3) as [?|_]; [lia|].
  rewrite weld_all_usable by (unfold UInt.modulus; lia).
  fold st.
  pose proof (fold_weld_in_bounds (usable source)) as Hb. fold st in Hb.
  rewrite length_usable in Hb.
  pose proof (Nat.Div0.mul_div_le (length source) 3) as Hdiv.
  set (q := (length source / 3)%nat) in *.
  destruct Hb as [Hsize _ Hem].
  destruct st as [vset tris] eqn:Est. cbn [fst snd] in *.
  fold vt.
  assert (Hvt : length vt = StdSet.size vset).
  { unfold vt, std_sort, StdSet.size. by rewrite merge_sort_Permutation. }
  assert (Hnt : UInt.wrap (Z.of_nat (length tris) / 3) = Z.of_nat q).
  { rewrite Hem, Nat2Z.inj_mul, Z.mul_comm, Z.div_mul by lia.
    unfold UInt.wrap, UInt.modulus. apply Z.mod_small. lia. }
  rewrite Hnt, of_size_small by (unfold UInt.modulus; lia).
  cbn [snd]. f_equal. f_equal.
  rewrite fill_vertices_coords.
  - unfold assembled, set_triangles, set_vertices, Mesh_new.
    cbn [vertex_count triangle_count vertices triangles triangle_normals
         vertex_normals].
    f_equal. apply copy_all. rewrite Hem. lia.
  - unfold UInt.modulus. lia.
  - unfold Mesh_new, Array.new. cbn [vertices]. f_equal. lia.
Qed.

(** ** What the normal computations leave alone *)

Lemma finish_vertex_count m : vertex_count (finish m) = vertex_count m.
Proof. reflexivity. Qed.
Lemma finish_triangle_count m : triangle_count (finish m) = triangle_count m.
Proof. reflexivity. Qed.
Lemma finish_vertices m : vertices (finish m) = vertices m.
Proof. reflexivity. Qed.
Lemma finish_triangles m : triangles (finish m) = triangles m.
Proof. reflexivity. Qed.

(** ** Reading arrays laid out three cells per entry *)

Definition triples {A B : Type} (f g h : A -> B) (l : list A) : list B :=
  flat_map (fun a => [f a; g a; h a]) l.

Lemma triples_lookup {A B : Type} (f g h : A -> B) (l : list A) (k : nat) :
  triples f g h l !! (3 * k)%nat = f <$> l !! k /\
  triples f g h l !! (3 * k + 1)%nat = g <$> l !! k /\
  triples f g h l !! (3 * k + 2)%nat = h <$> l !! k.
Proof.
  revert k. induction l as [|a l IH]; intros k; [done|].
  destruct k as [|k].
  - done.
  - replace (3 * S k)%nat with (S (S (S (3 * k)))) by lia.
    exact (IH k).
Qed.

Lemma length_triples {A B : Type} (f g h : A -> B) (l : list A) :
  length (triples f g h l) = (3 * length l)%nat.
Proof. induction l as [|a l IH]; cbn; [done|]. unfold triples in IH. rewrite IH. lia. Qed.

Lemma load3_triples {A B : Type} (f g h : A -> option B) (l : list A) (k : nat) :
  load3 (triples f g h l) (Z.of_nat k) =
  a ← l !! k; u ← f a; v ← g a; w ← h a; Some (u, v, w).
Proof.
  unfold load3, Array.load.
  replace (Z.to_nat (3 * Z.of_nat k)) with (3 * k)%nat by lia.
  replace (Z.to_nat (3 * Z.of_nat k + 1)) with (3 * k + 1)%nat by lia.
  replace (Z.to_nat (3 * Z.of_nat k + 2)) with (3 * k + 2)%nat by lia.
  destruct (triples_lookup f g h l k) as (-> & -> & ->).
  by destruct (l !! k).
Qed.

Lemma triples_populated {A B : Type} (f g h : A -> option B) (l : list A) :
  (forall a, a ∈ l -> is_Some (f a) /\ is_Some (g a) /\ is_Some (h a)) ->
  Array.populated (triples f g h l).
Proof.
  unfold Array.populated. induction l as [|a l IH]; intros Hl; cbn; [constructor|].
  destruct (Hl a) as (? & ? & ?); [by left|].
  repeat (constructor; [done|]). apply IH. intros b Hb. apply Hl. by right.
Qed.

Lemma cells_triple (o : option Eigen.Vector3d) :
  cells o = [Eigen.x <$> o; Eigen.y <$> o; Eigen.z <$> o].
Proof. by destruct o. Qed.

Lemma flat_map_cells {A : Type} (F : A -> option Eigen.Vector3d) (l : list A) :
  flat_map (fun a => cells (F a)) l =
  triples (fun a => Eigen.x <$> F a) (fun a => Eigen.y <$> F a)
          (fun a => Eigen.z <$> F a) l.
Proof.
  unfold triples. induction l as [|a l IH]; cbn; [done|].
  by rewrite IH, cells_triple.
Qed.

Lemma load_vec_cells {A : Type} (F : A -> option Eigen.Vector3d) (l : list A)
    (k : nat) :
  load_vec (flat_map (fun a => cells (F a)) l) (Z.of_nat k) = l !! k ≫= F.
Proof.
  unfold load_vec. rewrite flat_map_cells, load3_triples.
  destruct (l !! k) as [a|]; [|done]. cbn.
  destruct (F a) as [[x y z]|]; done.
Qed.

Lemma load_vec_coords {V : Type} (px py pz : V -> double) (vt : list V) (k : nat) :
  load_vec (coords px py pz vt) (Z.of_nat k) =
  (fun v => Eigen.Vec3 (px v) (py v) (pz v)) <$> vt !! k.
Proof.
  unfold load_vec.
  change (coords px py pz vt)
    with (triples (fun v => Some (px v)) (fun v => Some (py v))
                  (fun v => Some (pz v)) vt).
  rewrite load3_triples. by destruct (vt !! k).
Qed.

Lemma load3_indices (tris : list Z) (k : nat) u v w :
  tris !! (3 * k)%nat = Some u -> tris !! (3 * k + 1)%nat = Some v ->
  tris !! (3 * k + 2)%nat = Some w ->
  load3 (map Some tris) (Z.of_nat k) = Some (u, v, w).
Proof.
  intros Hu Hv Hw. unfold load3, Array.load.
  replace (Z.to_nat (3 * Z.of_nat k)) with (3 * k)%nat by lia.
  replace (Z.to_nat (3 * Z.of_nat k + 1)) with (3 * k + 1)%nat by lia.
  replace (Z.to_nat (3 * Z.of_nat k + 2)) with (3 * k + 2)%nat by lia.
  by rewrite !list_lookup_fmap, Hu, Hv, Hw.
Qed.

(** ** Normals of a well-indexed mesh are all written *)

Section WellIndexed.
Context {V : Type} (px py pz : V -> double) (vt : list V).
Context (M : nat) (tris : list Z).
Hypothesis tris_length : length tris = (3 * M)%nat.
Hypothesis tris_in_range : Forall (fun i => 0 <= i < Z.of_nat (length vt)) tris.

Let m0 : Mesh :=
  assembled (coords px py pz vt) (Z.of_nat (length vt)) (Z.of_nat M) tris.

Lemma index_triple (t : nat) :
  (t < M)%nat ->
  exists u v w,
    load3 (triangles m0) (Z.of_nat t) = Some (u, v, w) /\
    (0 <= u < Z.of_nat (length vt)) /\ (0 <= v < Z.of_nat (length vt)) /\
    (0 <= w < Z.of_nat (length vt)).
Proof using tris_length tris_in_range.
  intros Ht.
  destruct (lookup_lt_is_Some_2 tris (3 * t)) as [u Hu]; [lia|].
  destruct (lookup_lt_is_Some_2 tris (3 * t + 1)) as [v Hv]; [lia|].
  destruct (lookup_lt_is_Some_2 tris (3 * t + 2)) as [w Hw]; [lia|].
  exists u, v, w. split; [by apply load3_indices|].
  rewrite Forall_forall in tris_in_range.
  repeat split; eapply tris_in_range, list_elem_of_lookup_2; eassumption.
Qed.

Lemma vertex_loaded (i : Z) :
  0 <= i < Z.of_nat (length vt) -> is_Some (load_vec (vertices m0) i).
Proof.
  intros Hi. rewrite <- (Z2Nat.id i) by lia.
  change (vertices m0) with (coords px py pz vt). rewrite load_vec_coords.
  destruct (lookup_lt_is_Some_2 vt (Z.to_nat i)) as [a ->]; [lia|]. by eexists.
Qed.

Lemma triangle_normal_defined (t : nat) :
  (t < M)%nat -> is_Some (NormalComputer.triangle_normal m0 (Z.of_nat t)).
Proof using tris_length tris_in_range.
  intros Ht. destruct (index_triple t Ht) as (u & v & w & Hl & Hu & Hv & Hw).
  unfold NormalComputer.triangle_normal. rewrite Hl.
  cbn [mbind option_bind fst snd].
  destruct (vertex_loaded u Hu) as [a ->].
  destruct (vertex_loaded v Hv) as [b ->].
  destruct (vertex_loaded w Hw) as [c ->]. by eexists.
Qed.

Lemma triangle_normals_written :
  Array.populated (triangle_normals (finish m0)) /\
  length (triangle_normals (finish m0)) = (3 * M)%nat.
Proof using tris_length tris_in_range.
  change (triangle_normals (finish m0))
    with (flat_map (fun t => cells (NormalComputer.triangle_normal m0 (Z.of_nat t)))
                   (seq 0 (Z.to_nat (Z.of_nat M)))).
  rewrite Nat2Z.id, flat_map_cells. split.
  - apply triples_populated. intros t Ht. apply elem_of_seq in Ht.
    destruct (triangle_normal_defined t) as [n ->]; [lia|]. cbn. eauto.
  - by rewrite length_triples, length_seq.
Qed.

Lemma incidence_defined :
  is_Some (NormalComputer.incidence (NormalComputer.computeTriangleNormals m0)).
Proof using tris_length tris_in_range.
  unfold NormalComputer.incidence. apply mapM_is_Some, Forall_forall.
  intros t Ht. cbn [triangle_count NormalComputer.computeTriangleNormals
                    set_triangle_normals m0 assembled] in Ht.
  rewrite Nat2Z.id in Ht. apply elem_of_seq in Ht.
  cbn [compose].
  change (triangles (NormalComputer.computeTriangleNormals m0)) with (triangles m0).
  destruct (index_triple t) as (u & v & w & -> & _); [lia|].
  change (triangle_normals (NormalComputer.computeTriangleNormals m0))
    with (flat_map (fun t => cells (NormalComputer.triangle_normal m0 (Z.of_nat t)))
                   (seq 0 (Z.to_nat (Z.of_nat M)))).
  rewrite Nat2Z.id, load_vec_cells, lookup_seq_lt by lia. cbn.
  destruct (triangle_normal_defined t) as [n ->]; [lia|]. by eexists.
Qed.

Lemma vertex_normals_written :
  Array.populated (vertex_normals (finish m0)) /\
  length (vertex_normals (finish m0)) = (3 * length vt)%nat.
Proof using tris_length tris_in_range.
  change (vertex_normals (finish m0))
    with (flat_map
            (fun v => cells (NormalComputer.vertex_normal
                               (NormalComputer.computeTriangleNormals m0)
                               (Z.of_nat v)))
            (seq 0 (Z.to_nat (Z.of_nat (length vt))))).
  rewrite Nat2Z.id, flat_map_cells. split.
  - apply triples_populated. intros v _.
    unfold NormalComputer.vertex_normal.
    destruct incidence_defined as [inc ->]. cbn. eauto.
  - by rewrite length_triples, length_seq.
Qed.
End WellIndexed.

(** ** The welder of section 4.1, step by step *)

Lemma run_snoc points p :
  VertexWelder.run (points ++ [p]) =
  VertexWelder.step (VertexWelder.run points) p.
Proof. unfold VertexWelder.run. by rewrite fold_left_app. Qed.

Lemma run_length_indices points :
  length (VertexWelder.run points).2 = length points.
Proof.
  induction points as [|p points IH] using rev_ind; [done|].
  rewrite run_snoc, length_app. cbn [length]. unfold VertexWelder.step.
  destruct (VertexWelder.first_seen p _); cbn [snd];
    rewrite length_app; cbn [length]; lia.
Qed.

Lemma first_seen_Some p table i :
  VertexWelder.first_seen p table = Some i ->
  exists q, table !! i = Some q /\ Eigen.eqb q p = true.
Proof.
  revert i. induction table as [|q0 table IH]; intros i; cbn; [done|].
  destruct (Eigen.eqb q0 p) eqn:E.
  - intros [= <-]. eauto.
  - destruct (VertexWelder.first_seen p table) as [j|]; cbn; [|done].
    intros [= <-]. destruct (IH j eq_refl) as (q & ? & ?). eauto.
Qed.

Lemma first_seen_None p table :
  Forall (fun q => Eigen.eqb q p = false) table ->
  VertexWelder.first_seen p table = None.
Proof.
  induction 1 as [|q table Hq _ IH]; cbn; [done|]. by rewrite Hq, IH.
Qed.

Lemma eqb_refl p : Eigen.has_nan p = false -> Eigen.eqb p p = true.
Proof. intros H. by apply eqb_vkey. Qed.

(** Every point is sent to a table entry equal to it. *)
Lemma run_round_trip points :
  Forall (fun p => Eigen.has_nan p = false) points ->
  forall k p, points !! k = Some p ->
  exists i q,
    (VertexWelder.run points).2 !! k = Some (Z.of_nat i) /\
    (VertexWelder.run points).1 !! i = Some q /\ Eigen.eqb q p = true.
Proof.
  induction points as [|p' points IH] using rev_ind; intros Hnan k p Hk; [done|].
  apply Forall_app in Hnan as [Hnan Hp']. apply Forall_cons in Hp' as [Hp' _].
  rewrite run_snoc.
  pose proof (run_length_indices points) as Hlen.
  set (sp := VertexWelder.run points) in *.
  destruct (decide (k < length points)%nat) as [Hlt|Hge].
  - rewrite lookup_app_l in Hk by done.
    destruct (IH Hnan k p Hk) as (i & q & Hi & Hq & He).
    exists i, q. unfold VertexWelder.step.
    destruct (VertexWelder.first_seen p' sp.1); cbn [fst snd].
    + by rewrite lookup_app_l by lia.
    + rewrite lookup_app_l by lia. split; [done|]. split; [|done].
      apply lookup_app_l_Some. done.
  - pose proof (lookup_lt_Some _ _ _ Hk) as Hb. rewrite length_app in Hb.
    cbn [length] in Hb. assert (k = length points) as -> by lia.
    rewrite list_lookup_middle in Hk by done. injection Hk as <-.
    unfold VertexWelder.step.
    destruct (VertexWelder.first_seen p' sp.1) as [i|] eqn:E; cbn [fst snd].
    + destruct (first_seen_Some _ _ _ E) as (q & Hq & He). exists i, q.
      split; [|done]. by rewrite <- Hlen, list_lookup_middle.
    + exists (length sp.1), p'.
      split; [by rewrite <- Hlen, list_lookup_middle|].
      split; [by rewrite list_lookup_middle|]. by apply eqb_refl.
Qed.

(** Every table entry is the target of some point. *)
Lemma run_covers points (i : nat) :
  (i < length (VertexWelder.run points).1)%nat ->
  Z.of_nat i ∈ (VertexWelder.run points).2.
Proof.
  revert i. induction points as [|p points IH] using rev_ind; intros i.
  { cbn. lia. }
  rewrite run_snoc. set (sp := VertexWelder.run points) in *.
  unfold VertexWelder.step.
  destruct (VertexWelder.first_seen p sp.1); cbn [fst snd]; intros Hi.
  - apply elem_of_app. left. by apply IH.
  - rewrite length_app in Hi. cbn [length] in Hi. apply elem_of_app.
    destruct (decide (i < length sp.1)%nat) as [Hlt|Hge]; [left; by apply IH|].
    right. assert (i = length sp.1) as -> by lia. apply list_elem_of_singleton.
    done.
Qed.

(** Points that are pairwise different are all kept, in their order. *)
Lemma run_distinct points :
  (forall i j p q, (i < j)%nat -> points !! i = Some p -> points !! j = Some q ->
                   Eigen.eqb p q = false) ->
  VertexWelder.run points = (points, map Z.of_nat (seq 0 (length points))).
Proof.
  induction points as [|p points IH] using rev_ind; intros Hd; [done|].
  rewrite run_snoc, IH.
  - unfold VertexWelder.step. cbn [fst snd].
    rewrite first_seen_None.
    + rewrite length_app. cbn [length]. rewrite Nat.add_1_r, seq_S, map_app.
      done.
    + apply Forall_forall. intros q Hq. apply list_elem_of_lookup in Hq as [i Hi].
      apply (Hd i (length points)).
      * by eapply lookup_lt_Some.
      * by apply lookup_app_l_Some.
      * by rewrite list_lookup_middle.
  - intros i j u v Hij Hi Hj. apply (Hd i j); [done| |].
    + by apply lookup_app_l_Some.
    + by apply lookup_app_l_Some.
Qed.

(** Every index emitted names an entry of the table. *)
Lemma run_indices_in_range points :
  Forall (fun i => 0 <= i < Z.of_nat (length (VertexWelder.run points).1))
         (VertexWelder.run points).2.
Proof.
  induction points as [|p points IH] using rev_ind; [constructor|].
  rewrite run_snoc. set (sp := VertexWelder.run points) in *.
  unfold VertexWelder.step.
  destruct (VertexWelder.first_seen p sp.1) as [i|] eqn:E; cbn [fst snd].
  - apply Forall_app. split; [done|]. constructor; [|done].
    destruct (first_seen_Some _ _ _ E) as (q & Hq & _).
    apply lookup_lt_Some in Hq. lia.
  - rewrite length_app. cbn [length]. apply Forall_app. split.
    + eapply Forall_impl; [exact IH|]. intros i Hi. cbv beta in Hi |- *. lia.
    + constructor; [lia|done].
Qed.

(** ** The raw-triple entry point *)

Lemma usable_triples source :
  (length (usable source) / 3 = length source / 3)%nat.
Proof.
  rewrite length_usable, (Nat.mul_comm 3). apply Nat.div_mul. lia.
Qed.

Lemma usable_idem source : usable (usable source) = usable source.
Proof.
  unfold usable at 1. rewrite usable_triples.
  unfold usable. by rewrite take_take, Nat.min_id.
Qed.

Lemma run_table_bound points :
  (length (VertexWelder.run points).1 <= length points)%nat.
Proof.
  unfold VertexWelder.run.
  induction points as [|p points IH] using rev_ind; [done|].
  rewrite fold_left_app, length_app. cbn [fold_left length].
  set (sp := fold_left VertexWelder.step points ([], [])) in *.
  unfold VertexWelder.step.
  destruct (VertexWelder.first_seen p sp.1); cbn [fst]; [lia|].
  rewrite length_app. cbn [length]. lia.
Qed.

Lemma coords_imap (f : nat -> Eigen.Vector3d -> detail.LocalVertexType) table :
  (forall i q, detail.position (f i q) = Eigen.Vec3 (Eigen.x q) (Eigen.y q) (Eigen.z q)) ->
  coords detail.x detail.y detail.z (imap f table) =
  coords Eigen.x Eigen.y Eigen.z table.
Proof.
  revert f. induction table as [|q table IH]; intros f Hf; [done|].
  cbn. injection (Hf 0%nat q) as -> -> ->. do 3 f_equal.
  apply IH. intros i q'. apply Hf.
Qed.

Lemma coords_tagged table :
  coords detail.x detail.y detail.z (tagged table) =
  coords Eigen.x Eigen.y Eigen.z table.
Proof. by apply coords_imap. Qed.

(** C1, as the claim states it, fails on a coordinate that is NaN.  The
    point (NaN, 0, 0) is not equal to itself under component-wise [==], so
    by the claim each of its three occurrences is a new point, with indices
    0, 1, 2 and three vertices.  The set's comparator orders no occurrence
    before another (on this one value it is a strict weak order, so the
    set behaves as the standard defines), the source finds the first
    occurrence again and returns one vertex and the triple (0, 0, 0). *)
Lemma welding_nan_reuses_index :
  let p := Eigen.Vec3 Double.nan Double.zero Double.zero in
  Eigen.eqb p p = false /\
  VertexWelder.run (usable [p; p; p]) = ([p; p; p], [0; 1; 2]) /\
  exists mesh,
    (createMeshFromVertices [p; p; p]).2 = Some mesh /\
    vertex_count mesh = 1 /\
    triangles mesh = [Some 0; Some 0; Some 0] /\
    vertex_count mesh <> Z.of_nat (length (VertexWelder.run (usable [p; p; p])).1) /\
    triangles mesh <> map Some (VertexWelder.run (usable [p; p; p])).2.
Proof.
  cbv zeta. split; [reflexivity|]. split; [reflexivity|].
  eexists. split; [vm_compute; reflexivity|].
  split; [reflexivity|]. split; [reflexivity|]. split; discriminate.
Qed.

(** C1, amended: when no coordinate is NaN, welding assigns indices in
    first-discovery order.  For a sequence of at least three such points
    (few enough for the 32-bit counters of the source) the mesh returned by
    the raw-triple entry point is the one [VertexWelder.run] describes: a
    point equal (component-wise [==]) to an earlier one gets that point's
    index, a new point gets the current number of distinct points, and
    vertex [i] of the mesh is the [i]-th distinct point in order of first
    discovery. *)
Theorem welding_first_discovery_order (source : list Eigen.Vector3d) :
  3 <= Z.of_nat (length source) -> fits source ->
  Forall (fun p => Eigen.has_nan p = false) source ->
  exists mesh,
    (createMeshFromVertices source).2 = Some mesh /\
    vertex_count mesh = Z.of_nat (length (VertexWelder.run (usable source)).1) /\
    vertices mesh =
      coords Eigen.x Eigen.y Eigen.z (VertexWelder.run (usable source)).1 /\
    triangle_count mesh = Z.of_nat (length source / 3) /\
    triangles mesh = map Some (VertexWelder.run (usable source)).2.
Proof.
  intros H3 Hfit Hnan.
  pose proof (createMeshFromVertices_assembled source H3 Hfit) as Hbuilt.
  cbv zeta in Hbuilt.
  set (st := fold_left (fun st p => weld p st) (usable source) (StdSet.empty, [])) in *.
  assert (Hlen : (length (usable source) <= length source)%nat).
  { rewrite length_usable. apply Nat.Div0.mul_div_le. }
  destruct (welded_run (usable source) st) as [[Hidx Hperm _ _ _] _].
  { unfold usable. by apply Forall_take. }
  { unfold fits in Hfit. lia. }
  { reflexivity. }
  rewrite (sort_tagged _ _ Hperm) in Hbuilt.
  eexists. split; [exact Hbuilt|].
  rewrite finish_vertex_count, finish_vertices, finish_triangle_count,
    finish_triangles.
  cbn [assembled vertex_count triangle_count vertices triangles].
  set (table := (VertexWelder.run (usable source)).1).
  split; [|split; [|split]].
  - unfold tagged. by rewrite length_imap.
  - apply coords_tagged.
  - reflexivity.
  - by rewrite Hidx.
Qed.

Lemma welding_first_discovery_order_witness :
  exists mesh,
    (createMeshFromVertices
       [pt 3 0 0; pt 1 0 0; pt 0 1 0; pt 1 0 0; pt 3 0 0; pt 7 7 7]).2
      = Some mesh /\
    vertex_count mesh = 4 /\
    vertices mesh =
      coords Eigen.x Eigen.y Eigen.z [pt 3 0 0; pt 1 0 0; pt 0 1 0; pt 7 7 7] /\
    triangle_count mesh = 2 /\
    triangles mesh = map Some [0; 1; 2; 1; 0; 3].
Proof.
  apply (welding_first_discovery_order
           [pt 3 0 0; pt 1 0 0; pt 0 1 0; pt 1 0 0; pt 3 0 0; pt 7 7 7]).
  - vm_compute. discriminate.
  - vm_compute. reflexivity.
  - repeat constructor.
Defined.

(** C2: the three points (0,0,0), (1,0,0), (0,0,0) give a mesh of exactly
    two vertices and one triangle, whose index triple is (0, 1, 0). *)
Theorem createMeshFromVertices_coincident_corners :
  exists mesh,
    createMeshFromVertices [pt 0 0 0; pt 1 0 0; pt 0 0 0] = ([], Some mesh) /\
    vertex_count mesh = 2 /\
    triangle_count mesh = 1 /\
    vertices mesh = coords Eigen.x Eigen.y Eigen.z [pt 0 0 0; pt 1 0 0] /\
    triangles mesh = [Some 0; Some 1; Some 0].
Proof.
  eexists. split; [vm_compute; reflexivity|]. repeat split.
Qed.

(** C5: with fewer than three points the raw-triple entry point returns
    the absence value ([NULL]) and nothing else happens: no diagnostic, no
    mesh; the function is total, so there is no other outcome. *)
Theorem createMeshFromVertices_too_few (source : list Eigen.Vector3d) :
  Z.of_nat (length source) < 3 ->
  createMeshFromVertices source = ([], None).
Proof.
  intros H. unfold createMeshFromVertices.
  destruct (Z.ltb_spec (Z.of_nat (length source)) 3); [done|lia].
Qed.

Lemma createMeshFromVertices_too_few_witness :
  createMeshFromVertices [pt 0 0 0; pt 1 0 0] = ([], None).
Proof.
  apply (createMeshFromVertices_too_few [pt 0 0 0; pt 1 0 0]).
  vm_compute. reflexivity.
Defined.

(** C4, as the claim states it, fails when a coordinate is NaN.  Of the
    three points (5,3,0), (1,4,0), (NaN,3,0) the third is not found in the
    set (the search ends at (1,4,0), which it is ordered before), so it is
    given the index 2, the size of the set; but the insertion compares it
    with (5,3,0) only, which orders neither before the other, and adds
    nothing.  The mesh has two vertices and the index triple (0, 1, 2). *)
Lemma createMeshFromVertices_nan_index_out_of_range :
  let source :=
    [pt 5 3 0; pt 1 4 0;
     Eigen.Vec3 Double.nan (Double.of_Z 3) (Double.of_Z 0)] in
  3 <= Z.of_nat (length source) /\
  exists mesh,
    (createMeshFromVertices source).2 = Some mesh /\
    vertex_count mesh = 2 /\
    triangles mesh = [Some 0; Some 1; Some 2] /\
    ~ Forall (fun c => exists i, c = Some i /\ 0 <= i < vertex_count mesh)
             (triangles mesh).
Proof.
  cbv zeta. split; [vm_compute; discriminate|].
  eexists. split; [vm_compute; reflexivity|].
  split; [reflexivity|]. split; [reflexivity|].
  intros H. cbn [triangles vertex_count] in H.
  apply Forall_cons in H as [_ H]. apply Forall_cons in H as [_ H].
  apply Forall_cons in H as [(i & [= <-] & Hi) _]. lia.
Qed.

(** C4, amended: for at least three points, none with a NaN coordinate
    (and few enough for the 32-bit counters), a mesh is returned, every
    triangle index stored in it is below its vertex count, and each of its
    four arrays has the size its count calls for, with every cell
    written. *)
Theorem createMeshFromVertices_well_formed (source : list Eigen.Vector3d) :
  3 <= Z.of_nat (length source) -> fits source ->
  Forall (fun p => Eigen.has_nan p = false) source ->
  exists mesh,
    (createMeshFromVertices source).2 = Some mesh /\
    Forall (fun c => exists i, c = Some i /\ 0 <= i < vertex_count mesh)
           (triangles mesh) /\
    (Array.populated (vertices mesh) /\
     Z.of_nat (length (vertices mesh)) = 3 * vertex_count mesh) /\
    (Array.populated (triangles mesh) /\
     Z.of_nat (length (triangles mesh)) = 3 * triangle_count mesh) /\
    (Array.populated (triangle_normals mesh) /\
     Z.of_nat (length (triangle_normals mesh)) = 3 * triangle_count mesh) /\
    (Array.populated (vertex_normals mesh) /\
     Z.of_nat (length (vertex_normals mesh)) = 3 * vertex_count mesh).
Proof.
  intros H3 Hfit Hnan.
  pose proof (createMeshFromVertices_assembled source H3 Hfit) as Hbuilt.
  cbv zeta in Hbuilt.
  pose proof (fold_weld_in_bounds (usable source)) as Hb.
  set (st := fold_left (fun st p => weld p st) (usable source) (StdSet.empty, []))
    in *.
  rewrite length_usable in Hb.
  pose proof (Nat.Div0.mul_div_le (length source) 3) as Hdiv.
  set (M := (length source / 3)%nat) in *.
  destruct Hb as [_ _ Hem].
  destruct (welded_run (usable source) st) as [[Htris Hperm _ _ _] _].
  { unfold usable. by apply Forall_take. }
  { rewrite length_usable. unfold fits in Hfit. fold M. lia. }
  { reflexivity. }
  rewrite (sort_tagged _ _ Hperm) in Hbuilt.
  set (vt := tagged (VertexWelder.run (usable source)).1) in *.
  assert (Hidx : Forall (fun i => 0 <= i < Z.of_nat (length vt)) st.2).
  { rewrite Htris. unfold vt, tagged. rewrite length_imap.
    apply run_indices_in_range. }
  destruct (triangle_normals_written detail.x detail.y detail.z vt M st.2 Hem Hidx)
    as [Htn Htnl].
  destruct (vertex_normals_written detail.x detail.y detail.z vt M st.2 Hem Hidx)
    as [Hvn Hvnl].
  eexists. split; [exact Hbuilt|].
  rewrite finish_vertex_count, finish_triangle_count, finish_vertices,
    finish_triangles.
  cbn [assembled vertex_count triangle_count vertices triangles].
  split; [|split; [|split; [|split]]].
  - apply Forall_fmap. eapply Forall_impl; [exact Hidx|].
    intros i Hi. exists i. by split.
  - split.
    + apply (triples_populated (fun v => Some (detail.x v))).
      intros v _. repeat split; by eexists.
    + rewrite length_coords. lia.
  - split.
    + unfold Array.populated. apply Forall_fmap, Forall_forall.
      intros i _. by eexists.
    + rewrite length_fmap, Hem. lia.
  - split; [exact Htn|]. rewrite Htnl. lia.
  - split; [exact Hvn|]. rewrite Hvnl. lia.
Qed.

Lemma createMeshFromVertices_well_formed_witness :
  exists mesh,
    (createMeshFromVertices [pt 0 0 0; pt 1 0 0; pt 0 1 0; pt 5 5 5]).2
      = Some mesh /\
    Forall (fun c => exists i, c = Some i /\ 0 <= i < vertex_count mesh)
           (triangles mesh) /\
    (Array.populated (vertices mesh) /\
     Z.of_nat (length (vertices mesh)) = 3 * vertex_count mesh) /\
    (Array.populated (triangles mesh) /\
     Z.of_nat (length (triangles mesh)) = 3 * triangle_count mesh) /\
    (Array.populated (triangle_normals mesh) /\
     Z.of_nat (length (triangle_normals mesh)) = 3 * triangle_count mesh) /\
    (Array.populated (vertex_normals mesh) /\
     Z.of_nat (length (vertex_normals mesh)) = 3 * vertex_count mesh).
Proof.
  apply (createMeshFromVertices_well_formed
           [pt 0 0 0; pt 1 0 0; pt 0 1 0; pt 5 5 5]).
  - vm_compute. discriminate.
  - vm_compute. reflexivity.
  - repeat constructor.
Defined.

(** ** A point count that is not a multiple of three *)

Lemma createMeshFromVertices_log (source : list Eigen.Vector3d) :
  3 <= Z.of_nat (length source) ->
  (createMeshFromVertices source).1 =
  if negb (Z.of_nat (length source) mod 3 =? 0)
  then [logError not_divisible_msg] else [].
Proof.
  intros H3. unfold createMeshFromVertices.
  destruct (Z.ltb_spec (Z.of_nat (length source)) 3) as [?|_]; [lia|].
  by destruct (weld_all source).
Qed.

(** C6, as the claim states it, fails: for four points the only diagnostic
    is of error severity, none of warning severity is emitted. *)
Lemma createMeshFromVertices_remainder_not_a_warning :
  let source := [pt 0 0 0; pt 1 0 0; pt 0 1 0; pt 5 5 5] in
  3 <= Z.of_nat (length source) /\
  Z.of_nat (length source) mod 3 <> 0 /\
  (createMeshFromVertices source).1 =
    [Log CONSOLE_BRIDGE_LOG_ERROR not_divisible_msg] /\
  ~ (exists e, e ∈ (createMeshFromVertices source).1 /\
               level e = CONSOLE_BRIDGE_LOG_WARN).
Proof.
  cbv zeta. split; [vm_compute; discriminate|]. split; [vm_compute; discriminate|].
  split; [vm_compute; reflexivity|].
  intros (e & He & Hlevel).
  rewrite createMeshFromVertices_log in He by (vm_compute; discriminate).
  cbn in He. apply list_elem_of_singleton in He. subst e. discriminate.
Qed.

(** C6, amended: a point count that is at least 3 and not divisible by 3
    makes the raw-triple entry point emit one diagnostic, of error
    severity ([logError]), which does not stop it: a mesh is returned, and
    it is the mesh of the first [3 * floor(count / 3)] points. *)
Theorem createMeshFromVertices_remainder_truncated (source : list Eigen.Vector3d) :
  3 <= Z.of_nat (length source) ->
  Z.of_nat (length source) mod 3 <> 0 ->
  fits source ->
  (createMeshFromVertices source).1 =
    [Log CONSOLE_BRIDGE_LOG_ERROR not_divisible_msg] /\
  exists mesh,
    (createMeshFromVertices source).2 = Some mesh /\
    (createMeshFromVertices (usable source)).2 = Some mesh.
Proof.
  intros H3 Hrem Hfit. split.
  - rewrite createMeshFromVertices_log by done.
    destruct (Z.eqb_spec (Z.of_nat (length source) mod 3) 0); [done|reflexivity].
  - pose proof (Nat.Div0.mul_div_le (length source) 3) as Hdiv.
    assert (H1 : (1 <= length source / 3)%nat).
    { apply Nat.div_le_lower_bound; lia. }
    assert (H3' : 3 <= Z.of_nat (length (usable source))).
    { rewrite length_usable. lia. }
    assert (Hfit' : fits (usable source)).
    { unfold fits in *. rewrite length_usable. lia. }
    eexists. split; [exact (createMeshFromVertices_assembled source H3 Hfit)|].
    rewrite (createMeshFromVertices_assembled (usable source) H3' Hfit').
    cbv zeta. by rewrite usable_idem, usable_triples.
Qed.

Lemma createMeshFromVertices_remainder_truncated_witness :
  (createMeshFromVertices [pt 0 0 0; pt 1 0 0; pt 0 1 0; pt 5 5 5]).1 =
    [Log CONSOLE_BRIDGE_LOG_ERROR not_divisible_msg] /\
  exists mesh,
    (createMeshFromVertices [pt 0 0 0; pt 1 0 0; pt 0 1 0; pt 5 5 5]).2
      = Some mesh /\
    (createMeshFromVertices [pt 0 0 0; pt 1 0 0; pt 0 1 0]).2 = Some mesh.
Proof.
  apply (createMeshFromVertices_remainder_truncated
           [pt 0 0 0; pt 1 0 0; pt 0 1 0; pt 5 5 5]).
  - vm_compute. discriminate.
  - vm_compute. discriminate.
  - vm_compute. reflexivity.
Defined.

(** ** Scene flattening *)

(** Induction over a scene tree, the children of a node being covered by
    the hypothesis. *)
Fixpoint aiNode_tree_ind (P : Assimp.aiNode -> Prop)
    (step : forall t ms cs, Forall P cs -> P (Assimp.Node t ms cs))
    (node : Assimp.aiNode) {struct node} : P node :=
  match node with
  | Assimp.Node t ms cs =>
      step t ms cs
        ((fix children (l : list Assimp.aiNode) : Forall P l :=
            match l with
            | [] => @List.Forall_nil _ P
            | c :: l' =>
                @List.Forall_cons _ P c l' (aiNode_tree_ind P step c) (children l')
            end) cs)
  end.

Lemma push_all {A B : Type} (f : A -> B) (l : list A) (acc : list B) :
  fold_left (fun vs v => vs ++ [f v]) l acc = acc ++ map f l.
Proof.
  revert acc. induction l as [|a l IH]; intros acc; cbn.
  - by rewrite app_nil_r.
  - by rewrite IH, <- app_assoc.
Qed.

Lemma extract_mesh_vertices scene transform scale st k :
  (extract_mesh scene transform scale st k).1 =
  st.1 ++ map (fun v => scaled (Assimp.transform transform v) scale)
              (Assimp.mVertices (Assimp.mesh_at scene k)).
Proof. unfold extract_mesh. cbn [fst]. apply push_all. Qed.

Lemma extract_meshes_vertices scene transform scale ms st :
  (fold_left (extract_mesh scene transform scale) ms st).1 =
  st.1 ++ flat_map
            (fun k => map (fun v => scaled (Assimp.transform transform v) scale)
                          (Assimp.mVertices (Assimp.mesh_at scene k)))
            ms.
Proof.
  revert st. induction ms as [|k ms IH]; intros st; cbn [fold_left flat_map].
  - by rewrite app_nil_r.
  - by rewrite IH, extract_mesh_vertices, <- app_assoc.
Qed.

Lemma extractMeshData_vertices scene node :
  forall parent scale st,
    (extractMeshData scene node parent scale st).1 =
    st.1 ++ flattened_vertices scene node parent scale.
Proof.
  induction node as [local ms cs IH] using aiNode_tree_ind.
  intros parent scale st. cbn [extractMeshData flattened_vertices].
  set (cumulative := Assimp.mul parent local).
  rewrite app_assoc, <- extract_meshes_vertices.
  generalize (fold_left (extract_mesh scene cumulative scale) ms st).
  induction IH as [|c cs Hc _ IHcs]; intros st'; cbn [fold_left flat_map].
  - by rewrite app_nil_r.
  - by rewrite IHcs, Hc, <- app_assoc.
Qed.

(** C3: flattening appends, in pre-order, every vertex transformed by the
    cumulative transform of its node (the parent's cumulative transform
    times the node's own, so the node's own acts first) and then scaled
    component-wise.  In the two-node example the child contributes
    (3,0,0); under a doubling root a child translated by (1,0,0) puts the
    origin at (2,0,0), the translation acting before the doubling. *)
Theorem extractMeshData_cumulative_transform :
  (forall scene node parent scale st,
     (extractMeshData scene node parent scale st).1 =
     st.1 ++ flattened_vertices scene node parent scale) /\
  (forall scene local attached children parent scale,
     flattened_vertices scene (Assimp.Node local attached children) parent scale =
     flat_map
       (fun k => map (fun v => scaled (Assimp.transform (Assimp.mul parent local) v)
                                      scale)
                     (Assimp.mVertices (Assimp.mesh_at scene k)))
       attached
     ++ flat_map (fun c => flattened_vertices scene c (Assimp.mul parent local) scale)
                 children) /\
  (forall v s,
     scaled v s =
     Eigen.Vec3 (Double.mul (Float.to_double (Assimp.x v)) (Eigen.x s))
                (Double.mul (Float.to_double (Assimp.y v)) (Eigen.y s))
                (Double.mul (Float.to_double (Assimp.z v)) (Eigen.z s))) /\
  (extractMeshData two_node_scene (Assimp.mRootNode two_node_scene)
                   Assimp.identity one ([], [])).1 = [pt 3 0 0] /\
  (extractMeshData doubled_scene (Assimp.mRootNode doubled_scene)
                   Assimp.identity one ([], [])).1 = [pt 2 0 0].
Proof.
  split; [|split; [|split; [|split]]].
  - intros. apply extractMeshData_vertices.
  - reflexivity.
  - reflexivity.
  - vm_compute. reflexivity.
  - vm_compute. reflexivity.
Qed.

(** ** Mesh construction from a scene *)

Lemma for_loop_invariant {S : Type} (P : S -> Prop) (n : nat)
    (body : Z -> S -> S) (s : S) :
  P s -> (forall i s, P s -> P (body i s)) -> P (for_loop n body s).
Proof.
  intros Hs Hbody. induction n as [|n IH]; [done|].
  rewrite for_loop_S. by apply Hbody.
Qed.

Lemma fill_vertices_vertex_count {V : Type} (px py pz : V -> double) (d : V)
    (vt : list V) (mesh : Mesh) :
  vertex_count (fill_vertices px py pz d vt mesh) = vertex_count mesh.
Proof.
  unfold fill_vertices.
  by apply (for_loop_invariant (fun m => vertex_count m = vertex_count mesh)).
Qed.

Lemma createMeshFromVerticesTriangles_vertex_count verts tris :
  vertex_count (createMeshFromVerticesTriangles verts tris) =
  UInt.of_size (length verts).
Proof.
  unfold createMeshFromVerticesTriangles. cbv zeta.
  rewrite finish_vertex_count. cbn [vertex_count set_triangles].
  by rewrite fill_vertices_vertex_count.
Qed.

Lemma createMeshFromVerticesTriangles_positions verts tris :
  3 * Z.of_nat (length verts) < UInt.modulus ->
  vertices (createMeshFromVerticesTriangles verts tris) =
  coords Eigen.x Eigen.y Eigen.z verts.
Proof.
  intros Hfit. unfold createMeshFromVerticesTriangles. cbv zeta.
  rewrite finish_vertices. cbn [vertices set_triangles].
  rewrite fill_vertices_coords; [done|done|].
  unfold Mesh_new, Array.new. cbn [vertices]. f_equal.
  rewrite of_size_small by lia. lia.
Qed.

(** C7: once the scene has been traversed, an empty vertex list gives no
    mesh, a non-empty vertex list with an empty triangle list gives no
    mesh either, and only when both are non-empty is a mesh built, by the
    pre-indexed overload, from the two lists as collected: no vertex is
    merged, the mesh has one vertex per collected position. *)
Theorem createMeshFromAsset_absent_or_unwelded
    (scene : Assimp.aiScene) (scale : Eigen.Vector3d) (resource_name : string)
    (verts : list Eigen.Vector3d) (tris : list Z) :
  Assimp.HasMeshes scene = true ->
  extractMeshData scene (Assimp.mRootNode scene) Assimp.identity scale ([], [])
    = (verts, tris) ->
  (verts = [] ->
   createMeshFromAssetScaled scene scale resource_name =
   ([logWarn ("There are no vertices in the scene " ++ resource_name)], None)) /\
  (verts <> [] -> tris = [] ->
   createMeshFromAssetScaled scene scale resource_name =
   ([logWarn ("There are no triangles in the scene " ++ resource_name)], None)) /\
  (verts <> [] -> tris <> [] ->
   createMeshFromAssetScaled scene scale resource_name =
   ([], Some (createMeshFromVerticesTriangles verts tris))) /\
  (forall mesh,
     (createMeshFromAssetScaled scene scale resource_name).2 = Some mesh ->
     verts <> [] /\ tris <> [] /\
     mesh = createMeshFromVerticesTriangles verts tris /\
     vertex_count mesh = UInt.of_size (length verts) /\
     (3 * Z.of_nat (length verts) < UInt.modulus ->
      vertices mesh = coords Eigen.x Eigen.y Eigen.z verts)).
Proof.
  intros Hhas Hflat. unfold createMeshFromAssetScaled.
  rewrite Hhas, Hflat. cbn [negb].
  split; [|split; [|split]].
  - by intros ->.
  - intros Hv ->. by destruct verts.
  - intros Hv Ht. by destruct verts, tris.
  - intros mesh Hmesh. destruct verts as [|v verts]; [done|].
    destruct tris as [|i tris]; [done|].
    cbn [snd] in Hmesh. injection Hmesh as <-.
    split; [done|]. split; [done|]. split; [reflexivity|].
    split; [apply createMeshFromVerticesTriangles_vertex_count|].
    apply createMeshFromVerticesTriangles_positions.
Qed.

Lemma createMeshFromAsset_absent_or_unwelded_witness :
  let verts := [pt 0 0 0; pt 1 0 0; pt 0 0 0] in
  let tris := [0; 1; 2] in
  (verts = [] ->
   createMeshFromAssetScaled seam_scene one "seam" =
   ([logWarn ("There are no vertices in the scene " ++ "seam")], None)) /\
  (verts <> [] -> tris = [] ->
   createMeshFromAssetScaled seam_scene one "seam" =
   ([logWarn ("There are no triangles in the scene " ++ "seam")], None)) /\
  (verts <> [] -> tris <> [] ->
   createMeshFromAssetScaled seam_scene one "seam" =
   ([], Some (createMeshFromVerticesTriangles verts tris))) /\
  (forall mesh,
     (createMeshFromAssetScaled seam_scene one "seam").2 = Some mesh ->
     verts <> [] /\ tris <> [] /\
     mesh = createMeshFromVerticesTriangles verts tris /\
     vertex_count mesh = UInt.of_size (length verts) /\
     (3 * Z.of_nat (length verts) < UInt.modulus ->
      vertices mesh = coords Eigen.x Eigen.y Eigen.z verts)).
Proof.
  cbv zeta. apply (createMeshFromAsset_absent_or_unwelded seam_scene one "seam").
  - reflexivity.
  - vm_compute. reflexivity.
Defined.

(** ** The default scale *)

(** A double in the binary64 format (mantissa and exponent in range). *)
Definition valid (a : double) : Prop :=
  valid_binary Double.prec Double.emax a = true.

Lemma shr_fexp_shifted (m : positive) (e : Z) :
  fexp Double.prec Double.emax (Z.pos (digits2_pos m) + e) = e ->
  shr_fexp Double.prec Double.emax (Z.pos (Pos.iter xO m 52)) (e + -52) loc_Exact =
  ({| shr_m := Z.pos m; shr_r := false; shr_s := false |}, e).
Proof.
  intros Hc. unfold shr_fexp.
  assert (Hd : Zdigits2 (Z.pos (Pos.iter xO m 52)) = Z.pos (digits2_pos m) + 52).
  { cbn. lia. }
  rewrite Hd.
  replace (Z.pos (digits2_pos m) + 52 + (e + -52))
    with (Z.pos (digits2_pos m) + e) by lia.
  rewrite Hc.
  replace (e - (e + -52)) with 52 by lia.
  cbn [shr shr_record_of_loc]. f_equal. lia.
Qed.

Lemma shr_fexp_canonical (m : positive) (e : Z) :
  fexp Double.prec Double.emax (Z.pos (digits2_pos m) + e) = e ->
  shr_fexp Double.prec Double.emax (Z.pos m) e loc_Exact =
  ({| shr_m := Z.pos m; shr_r := false; shr_s := false |}, e).
Proof.
  intros Hc. unfold shr_fexp. cbn [Zdigits2]. by rewrite Hc, Z.sub_diag.
Qed.

(** Multiplying by 1.0 changes no double. *)
Lemma mul_one_valid (a : double) : valid a -> Double.mul a Double.one = a.
Proof.
  unfold valid. destruct a as [s|s| |s m e]; cbn [valid_binary].
  - intros _. by destruct s.
  - intros _. by destruct s.
  - done.
  - unfold bounded, canonical_mantissa. intros [Hc Hb]%andb_true_iff.
    apply Z.eqb_eq in Hc.
    change Double.one with (S754_finite false 4503599627370496 (-52)).
    unfold Double.mul, SFmul, binary_round_aux.
    rewrite xorb_false_r, Pos.mul_comm.
    change (4503599627370496 * m)%positive with (Pos.iter xO m 52).
    rewrite (shr_fexp_shifted m e Hc).
    cbn [shr_m loc_of_shr_record round_nearest_even].
    rewrite (shr_fexp_canonical m e Hc). cbn [shr_m].
    by rewrite Hb.
Qed.

(** C8: the default scale is the identity constant (1,1,1).  Whatever the
    retriever and the importer do, the one-argument
    [createMeshFromResource] agrees with the scaled overload at (1,1,1),
    and the three-argument [createMeshFromBinary] with the scaled overload
    at (1,1,1); and multiplying a coordinate by a component of that
    constant leaves it as it is. *)
Theorem default_scale_is_one
    (ReadFileFromMemory : Buffer -> Z -> string -> option Assimp.aiScene)
    (retriever_get : string -> MemoryResource + string) :
  one = Eigen.Vec3 (Double.of_Z 1) (Double.of_Z 1) (Double.of_Z 1) /\
  (forall resource,
     createMeshFromResource ReadFileFromMemory retriever_get resource =
     createMeshFromResourceScaled ReadFileFromMemory retriever_get resource
       (Eigen.Vec3 (Double.of_Z 1) (Double.of_Z 1) (Double.of_Z 1))) /\
  (forall buffer size hint,
     createMeshFromBinary ReadFileFromMemory buffer size hint =
     createMeshFromBinaryScaled ReadFileFromMemory buffer size
       (Eigen.Vec3 (Double.of_Z 1) (Double.of_Z 1) (Double.of_Z 1)) hint) /\
  (forall a : double,
     valid a ->
     Double.mul a (Eigen.x one) = a /\ Double.mul a (Eigen.y one) = a /\
     Double.mul a (Eigen.z one) = a).
Proof.
  split; [reflexivity|]. split; [reflexivity|]. split; [reflexivity|].
  intros a Ha. cbn [one Eigen.x Eigen.y Eigen.z].
  by rewrite mul_one_valid.
Qed.

(** ** The box *)

(** C10: [createMeshFromShape] never rejects a box: whatever the three
    extents (zero and negative ones included) the result is a mesh of 8
    vertices and 12 triangles, its coordinates the half extents with the
    signs of the eight corners, its indices the fixed table [tri], all of
    them below 8. *)
Theorem createMeshFromShape_box (box : Box) :
  let x := Double.div (box_size box).1.1 (Double.of_Z 2) in
  let y := Double.div (box_size box).1.2 (Double.of_Z 2) in
  let z := Double.div (box_size box).2 (Double.of_Z 2) in
  let n := Double.opp in
  let mesh := createMeshFromShape box in
  vertex_count mesh = 8 /\
  triangle_count mesh = 12 /\
  vertices mesh =
    map Some [n x; n y; n z;   x; n y; n z;   x; n y; z;   n x; n y; z;
              n x; y; z;   n x; y; n z;   x; y; z;   x; y; n z] /\
  triangles mesh = map Some tri /\
  length tri = 36%nat /\
  Forall (fun i => 0 <= i < 8) tri.
Proof.
  cbv zeta. split; [reflexivity|]. split; [reflexivity|].
  split; [reflexivity|]. split; [reflexivity|]. split; [reflexivity|].
  unfold tri. repeat (constructor; [lia|]). constructor.
Qed.

(** ** Normals *)








Lemma mul_comm (a b : double) : Double.mul a b = Double.mul b a.
Proof.
  unfold Double.mul, SFmul.
  destruct a as [sa|sa| |sa ma ea], b as [sb|sb| |sb mb eb];
    rewrite ?(xorb_comm sa sb); try reflexivity.
  by rewrite Pos.mul_comm, Z.add_comm.
Qed.












(** * Further properties of the source *)

(** ** The raw-triple entry point *)

(** X1: welding neither invents nor loses everything: for at least three
    points (within the 32-bit counters) the mesh has at least one vertex
    and at most as many vertices as there are input points, and one
    triangle per complete triple. *)
Theorem welded_vertex_count_bounds (source : list Eigen.Vector3d) :
  3 <= Z.of_nat (length source) -> fits source ->
  exists mesh,
    (createMeshFromVertices source).2 = Some mesh /\
    1 <= vertex_count mesh <= Z.of_nat (length source) /\
    triangle_count mesh = Z.of_nat (length source / 3).
Proof.
  intros H3 Hfit.
  pose proof (createMeshFromVertices_assembled source H3 Hfit) as Hbuilt.
  cbv zeta in Hbuilt.
  pose proof (fold_weld_in_bounds (usable source)) as Hb.
  set (st := fold_left (fun st p => weld p st) (usable source) (StdSet.empty, [])) in *.
  set (vt := std_sort detail.ltLocalVertexIndex (StdSet.elements st.1)) in *.
  rewrite length_usable in Hb.
  pose proof (Nat.Div0.mul_div_le (length source) 3) as Hdiv.
  assert (H1 : (1 <= length source / 3)%nat).
  { apply Nat.div_le_lower_bound; lia. }
  set (M := (length source / 3)%nat) in *.
  destruct Hb as [Hsize Hne _].
  assert (Hvt : length vt = StdSet.size st.1).
  { unfold vt, std_sort, StdSet.size. by rewrite merge_sort_Permutation. }
  eexists. split; [exact Hbuilt|].
  rewrite finish_vertex_count, finish_triangle_count.
  cbn [assembled vertex_count triangle_count].
  split; [|reflexivity]. rewrite Hvt. specialize (Hne ltac:(lia)). lia.
Qed.

Lemma welded_vertex_count_bounds_witness :
  exists mesh,
    (createMeshFromVertices [pt 0 0 0; pt 0 0 0; pt 0 0 0]).2 = Some mesh /\
    1 <= vertex_count mesh <= 3 /\
    triangle_count mesh = 1.
Proof.
  apply (welded_vertex_count_bounds [pt 0 0 0; pt 0 0 0; pt 0 0 0]).
  - vm_compute. discriminate.
  - vm_compute. reflexivity.
Defined.

(** X2: the welding loop never reads outside the point sequence, whatever
    its length: in every iteration (counter [i], the [k]-th the loop
    takes) the three reads [source[i3]], [source[++i3]], [source[++i3]] of
    the body each return an element of the sequence, and the body welds
    exactly these three. *)
Theorem welding_reads_in_range (source : list Eigen.Vector3d) (k : nat)
    (st : WeldState) :
  (k < Z.to_nat (UInt.wrap (Z.of_nat (length source) / 3)))%nat ->
  let i := UInt.of_size k in
  exists p0 p1 p2,
    source !! Z.to_nat (UInt.mul i 3) = Some p0 /\
    source !! Z.to_nat (UInt.add (UInt.mul i 3) 1) = Some p1 /\
    source !! Z.to_nat (UInt.add (UInt.add (UInt.mul i 3) 1) 1) = Some p2 /\
    weld_body source i st = weld p2 (weld p1 (weld p0 st)).
Proof.
  intros Hk. cbv zeta.
  assert (Hi : 0 <= UInt.of_size k < UInt.wrap (Z.of_nat (length source) / 3)).
  { pose proof (Z.mod_pos_bound (Z.of_nat (length source) / 3) UInt.modulus
                  ltac:(done)) as Hn.
    unfold UInt.wrap in *. rewrite of_size_small by lia. lia. }
  destruct (weld_body_reads_in_range source _ Hi) as (H0 & H1 & H2).
  cbv zeta in H0, H1, H2.
  set (i3 := UInt.mul (UInt.of_size k) 3) in *.
  destruct (lookup_lt_is_Some_2 source (Z.to_nat i3)) as [p0 Hp0]; [lia|].
  destruct (lookup_lt_is_Some_2 source (Z.to_nat (UInt.add i3 1)))
    as [p1 Hp1]; [lia|].
  destruct (lookup_lt_is_Some_2 source (Z.to_nat (UInt.add (UInt.add i3 1) 1)))
    as [p2 Hp2]; [lia|].
  exists p0, p1, p2. split; [done|]. split; [done|]. split; [done|].
  unfold weld_body, at_index. cbv zeta. fold i3.
  by rewrite (nth_lookup_Some _ _ _ _ Hp0), (nth_lookup_Some _ _ _ _ Hp1),
    (nth_lookup_Some _ _ _ _ Hp2).
Qed.

Lemma welding_reads_in_range_witness :
  exists p0 p1 p2,
    repeat (pt 0 0 0) 7 !! Z.to_nat (UInt.mul (UInt.of_size 1) 3) = Some p0 /\
    repeat (pt 0 0 0) 7 !! Z.to_nat (UInt.add (UInt.mul (UInt.of_size 1) 3) 1)
      = Some p1 /\
    repeat (pt 0 0 0) 7
      !! Z.to_nat (UInt.add (UInt.add (UInt.mul (UInt.of_size 1) 3) 1) 1)
      = Some p2 /\
    weld_body (repeat (pt 0 0 0) 7) (UInt.of_size 1) (StdSet.empty, []) =
    weld p2 (weld p1 (weld p0 (StdSet.empty, []))).
Proof.
  apply (welding_reads_in_range (repeat (pt 0 0 0) 7) 1 (StdSet.empty, [])).
  vm_compute. lia.
Defined.

(** X3: the raw-triple entry point returns no mesh exactly when it is
    given fewer than three points, and then says nothing; it is silent
    exactly when the count is below three or a multiple of three, and
    otherwise its only diagnostic is the error about the count. *)
Theorem createMeshFromVertices_outcome (source : list Eigen.Vector3d) :
  ((createMeshFromVertices source).2 = None <-> Z.of_nat (length source) < 3) /\
  ((createMeshFromVertices source).1 = [] <->
   Z.of_nat (length source) < 3 \/ Z.of_nat (length source) mod 3 = 0) /\
  ((createMeshFromVertices source).1 <> [] ->
   (createMeshFromVertices source).1 = [logError not_divisible_msg]).
Proof.
  unfold createMeshFromVertices.
  destruct (Z.ltb_spec (Z.of_nat (length source)) 3) as [Hlt|Hge].
  - split; [done|]. split; [|done]. split; auto.
  - destruct (weld_all source) as [vset tris]. cbn [fst snd].
    split; [split; [done|lia]|].
    destruct (Z.eqb_spec (Z.of_nat (length source) mod 3) 0) as [Hz|Hnz];
      cbn [negb].
    + split; [|done]. split; auto.
    + split; [|done]. split; [done|]. intros [?|?]; [lia|done].
Qed.

(** ** The mesh of the raw-triple entry point, through the welder *)

(** The mesh the pre-indexed overload builds. *)
Lemma createMeshFromVerticesTriangles_assembled verts tris (k : nat) :
  fits verts -> length tris = (3 * k)%nat -> Z.of_nat k < UInt.modulus ->
  createMeshFromVerticesTriangles verts tris =
  finish (assembled (coords Eigen.x Eigen.y Eigen.z verts)
                    (Z.of_nat (length verts)) (Z.of_nat k) tris).
Proof.
  intros Hfit Hlen Hk. unfold fits in Hfit.
  unfold createMeshFromVerticesTriangles. cbv zeta.
  assert (Hnt : UInt.wrap (Z.of_nat (length tris) / 3) = Z.of_nat k).
  { rewrite Hlen, Nat2Z.inj_mul, Z.mul_comm, Z.div_mul by lia.
    apply wrap_small. lia. }
  rewrite Hnt, of_size_small by lia. f_equal.
  rewrite fill_vertices_coords.
  - unfold assembled, set_triangles, set_vertices, Mesh_new.
    cbn [vertex_count triangle_count vertices triangles triangle_normals
         vertex_normals].
    f_equal. apply copy_all. rewrite Hlen. lia.
  - done.
  - unfold Mesh_new, Array.new. cbn [vertices]. f_equal. lia.
Qed.

Lemma createMeshFromVertices_welded source :
  3 <= Z.of_nat (length source) -> fits source ->
  Forall (fun p => Eigen.has_nan p = false) source ->
  let sp := VertexWelder.run (usable source) in
  (createMeshFromVertices source).2 =
  Some (finish (assembled (coords Eigen.x Eigen.y Eigen.z sp.1)
                          (Z.of_nat (length sp.1))
                          (Z.of_nat (length source / 3)) sp.2)) /\
  NoDup (map vkey sp.1) /\
  Forall (fun p => Eigen.has_nan p = false) sp.1.
Proof.
  intros H3 Hfit Hnan sp.
  pose proof (createMeshFromVertices_assembled source H3 Hfit) as Hbuilt.
  cbv zeta in Hbuilt.
  set (st := fold_left (fun st p => weld p st) (usable source) (StdSet.empty, [])) in *.
  assert (Hlen : (length (usable source) <= length source)%nat).
  { rewrite length_usable. apply Nat.Div0.mul_div_le. }
  destruct (welded_run (usable source) st) as [[Hidx Hperm _ Hnd Hnf] _].
  { unfold usable. by apply Forall_take. }
  { unfold fits in Hfit. lia. }
  { reflexivity. }
  rewrite (sort_tagged _ _ Hperm) in Hbuilt.
  rewrite coords_tagged, Hidx in Hbuilt. unfold tagged in Hbuilt.
  rewrite length_imap in Hbuilt. done.
Qed.

Lemma load_index (tris : list Z) (k : nat) :
  Array.load (map Some tris) (Z.of_nat k) = tris !! k.
Proof.
  unfold Array.load. rewrite Nat2Z.id, list_lookup_fmap.
  by destruct (tris !! k).
Qed.

Lemma load_position (table : list Eigen.Vector3d) (i : nat) :
  load_vec (coords Eigen.x Eigen.y Eigen.z table) (Z.of_nat i) = table !! i.
Proof.
  rewrite load_vec_coords. destruct (table !! i) as [[a b c]|]; done.
Qed.

(** X9: welding loses no point: reading a stored index back through the
    vertex array gives a point equal (component-wise [==]) to the input
    point it was emitted for.  For at least three points without NaN
    (within the 32-bit counters), entry [k] of the index array, for every
    [k] below [3 * floor(count / 3)], names a vertex of the mesh that
    equals [source[k]]. *)
Theorem welding_round_trip (source : list Eigen.Vector3d) :
  3 <= Z.of_nat (length source) -> fits source ->
  Forall (fun p => Eigen.has_nan p = false) source ->
  exists mesh,
    (createMeshFromVertices source).2 = Some mesh /\
    forall (k : nat) (p : Eigen.Vector3d),
      (k < 3 * (length source / 3))%nat -> source !! k = Some p ->
      exists (i : Z) (v : Eigen.Vector3d),
        Array.load (triangles mesh) (Z.of_nat k) = Some i /\
        0 <= i < vertex_count mesh /\
        load_vec (vertices mesh) i = Some v /\
        Eigen.eqb v p = true.
Proof.
  intros H3 Hfit Hnan.
  destruct (createMeshFromVertices_welded source H3 Hfit Hnan) as (Hbuilt & _ & _).
  cbv zeta in Hbuilt. set (sp := VertexWelder.run (usable source)) in *.
  eexists. split; [exact Hbuilt|]. intros k p Hk Hp.
  rewrite finish_vertex_count, finish_vertices, finish_triangles.
  cbn [assembled vertex_count vertices triangles].
  destruct (run_round_trip (usable source)) with (k := k) (p := p)
    as (i & q & Hi & Hq & He).
  { unfold usable. by apply Forall_take. }
  { unfold usable. by rewrite lookup_take_lt. }
  fold sp in Hi, Hq.
  exists (Z.of_nat i), q. rewrite load_index, load_position.
  split; [done|]. split; [|done].
  apply lookup_lt_Some in Hq. lia.
Qed.

Lemma welding_round_trip_witness :
  exists mesh,
    (createMeshFromVertices [pt 1 0 0; pt 0 1 0; pt 1 0 0]).2 = Some mesh /\
    forall (k : nat) (p : Eigen.Vector3d),
      (k < 3 * (3 / 3))%nat -> [pt 1 0 0; pt 0 1 0; pt 1 0 0] !! k = Some p ->
      exists (i : Z) (v : Eigen.Vector3d),
        Array.load (triangles mesh) (Z.of_nat k) = Some i /\
        0 <= i < vertex_count mesh /\
        load_vec (vertices mesh) i = Some v /\
        Eigen.eqb v p = true.
Proof.
  apply (welding_round_trip [pt 1 0 0; pt 0 1 0; pt 1 0 0]).
  - vm_compute. discriminate.
  - vm_compute. reflexivity.
  - repeat constructor.
Defined.

(** X10: welding leaves no duplicate: in the mesh built from at least
    three points without NaN (within the 32-bit counters) no two vertices
    are equal under component-wise [==]. *)
Theorem welded_vertices_distinct (source : list Eigen.Vector3d) :
  3 <= Z.of_nat (length source) -> fits source ->
  Forall (fun p => Eigen.has_nan p = false) source ->
  exists mesh,
    (createMeshFromVertices source).2 = Some mesh /\
    forall (i j : nat) (u v : Eigen.Vector3d),
      i <> j ->
      load_vec (vertices mesh) (Z.of_nat i) = Some u ->
      load_vec (vertices mesh) (Z.of_nat j) = Some v ->
      Eigen.eqb u v = false.
Proof.
  intros H3 Hfit Hnan.
  destruct (createMeshFromVertices_welded source H3 Hfit Hnan)
    as (Hbuilt & Hnd & Hnf).
  cbv zeta in Hbuilt. set (sp := VertexWelder.run (usable source)) in *.
  eexists. split; [exact Hbuilt|]. intros i j u v Hij.
  rewrite finish_vertices. cbn [assembled vertices].
  rewrite !load_position. intros Hu Hv.
  destruct (Eigen.eqb u v) eqn:E; [|done]. exfalso. apply Hij.
  rewrite Forall_forall in Hnf.
  apply eqb_vkey in E; [|eapply Hnf, list_elem_of_lookup_2; eassumption..].
  apply (NoDup_lookup _ i j (vkey u) Hnd); rewrite list_lookup_fmap.
  - by rewrite Hu.
  - by rewrite Hv, E.
Qed.

Lemma welded_vertices_distinct_witness :
  exists mesh,
    (createMeshFromVertices [pt 1 0 0; pt 0 1 0; pt 1 0 0]).2 = Some mesh /\
    forall (i j : nat) (u v : Eigen.Vector3d),
      i <> j ->
      load_vec (vertices mesh) (Z.of_nat i) = Some u ->
      load_vec (vertices mesh) (Z.of_nat j) = Some v ->
      Eigen.eqb u v = false.
Proof.
  apply (welded_vertices_distinct [pt 1 0 0; pt 0 1 0; pt 1 0 0]).
  - vm_compute. discriminate.
  - vm_compute. reflexivity.
  - repeat constructor.
Defined.

(** X11: welding leaves no orphan: every vertex of the mesh built from at
    least three points without NaN (within the 32-bit counters) is named
    by at least one entry of the index array. *)
Theorem welded_vertices_referenced (source : list Eigen.Vector3d) :
  3 <= Z.of_nat (length source) -> fits source ->
  Forall (fun p => Eigen.has_nan p = false) source ->
  exists mesh,
    (createMeshFromVertices source).2 = Some mesh /\
    forall i : Z, 0 <= i < vertex_count mesh -> Some i ∈ triangles mesh.
Proof.
  intros H3 Hfit Hnan.
  destruct (createMeshFromVertices_welded source H3 Hfit Hnan) as (Hbuilt & _ & _).
  cbv zeta in Hbuilt. set (sp := VertexWelder.run (usable source)) in *.
  eexists. split; [exact Hbuilt|]. intros i.
  rewrite finish_vertex_count, finish_triangles.
  cbn [assembled vertex_count triangles]. intros Hi.
  apply list_elem_of_fmap. exists i. split; [done|].
  rewrite <- (Z2Nat.id i) by lia. apply run_covers. fold sp. lia.
Qed.

Lemma welded_vertices_referenced_witness :
  exists mesh,
    (createMeshFromVertices [pt 1 0 0; pt 0 1 0; pt 1 0 0]).2 = Some mesh /\
    forall i : Z, 0 <= i < vertex_count mesh -> Some i ∈ triangles mesh.
Proof.
  apply (welded_vertices_referenced [pt 1 0 0; pt 0 1 0; pt 1 0 0]).
  - vm_compute. discriminate.
  - vm_compute. reflexivity.
  - repeat constructor.
Defined.

(** X12: nothing is welded that does not coincide: when the points read
    (the first [3 * floor(count / 3)], none with a NaN) are pairwise
    different under [==], the mesh has one vertex per point, in input
    order, and its index array is 0, 1, 2, ... *)
Theorem welding_distinct_points_kept (source : list Eigen.Vector3d) :
  3 <= Z.of_nat (length source) -> fits source ->
  Forall (fun p => Eigen.has_nan p = false) source ->
  (forall i j p q, (i < j)%nat ->
     usable source !! i = Some p -> usable source !! j = Some q ->
     Eigen.eqb p q = false) ->
  exists mesh,
    (createMeshFromVertices source).2 = Some mesh /\
    vertex_count mesh = Z.of_nat (length (usable source)) /\
    vertices mesh = coords Eigen.x Eigen.y Eigen.z (usable source) /\
    triangles mesh =
      map (fun k => Some (Z.of_nat k)) (seq 0 (length (usable source))).
Proof.
  intros H3 Hfit Hnan Hd.
  destruct (createMeshFromVertices_welded source H3 Hfit Hnan) as (Hbuilt & _ & _).
  cbv zeta in Hbuilt. rewrite (run_distinct _ Hd) in Hbuilt. cbn [fst snd] in Hbuilt.
  eexists. split; [exact Hbuilt|].
  rewrite finish_vertex_count, finish_vertices, finish_triangles.
  cbn [assembled vertex_count vertices triangles].
  split; [done|]. split; [done|]. by rewrite map_map.
Qed.

Lemma welding_distinct_points_kept_witness :
  exists mesh,
    (createMeshFromVertices [pt 1 0 0; pt 0 1 0; pt 0 0 1]).2 = Some mesh /\
    vertex_count mesh = 3 /\
    vertices mesh = coords Eigen.x Eigen.y Eigen.z [pt 1 0 0; pt 0 1 0; pt 0 0 1] /\
    triangles mesh = [Some 0; Some 1; Some 2].
Proof.
  apply (welding_distinct_points_kept [pt 1 0 0; pt 0 1 0; pt 0 0 1]).
  - vm_compute. discriminate.
  - vm_compute. reflexivity.
  - repeat constructor.
  - intros i j p q Hij Hi Hj.
    destruct i as [|[|[|i]]], j as [|[|[|j]]]; try lia; try discriminate;
      injection Hi as <-; injection Hj as <-; reflexivity.
Defined.

(** X13: the raw-triple overload is welding followed by the pre-indexed
    overload: for at least three points without NaN (within the 32-bit
    counters) it returns the very mesh the pre-indexed overload builds
    from the distinct points in first-discovery order and the indices of
    the points among them. *)
Theorem createMeshFromVertices_welds_then_indexes (source : list Eigen.Vector3d) :
  3 <= Z.of_nat (length source) -> fits source ->
  Forall (fun p => Eigen.has_nan p = false) source ->
  (createMeshFromVertices source).2 =
  Some (createMeshFromVerticesTriangles (VertexWelder.run (usable source)).1
                                        (VertexWelder.run (usable source)).2).
Proof.
  intros H3 Hfit Hnan.
  destruct (createMeshFromVertices_welded source H3 Hfit Hnan) as (Hbuilt & _ & _).
  cbv zeta in Hbuilt. rewrite Hbuilt. f_equal. symmetry.
  pose proof (run_table_bound (usable source)) as Hb.
  pose proof (Nat.Div0.mul_div_le (length source) 3) as Hdiv.
  rewrite length_usable in Hb. unfold fits in Hfit.
  apply createMeshFromVerticesTriangles_assembled.
  - unfold fits. lia.
  - by rewrite run_length_indices, length_usable.
  - lia.
Qed.

Lemma createMeshFromVertices_welds_then_indexes_witness :
  (createMeshFromVertices [pt 1 0 0; pt 0 1 0; pt 1 0 0]).2 =
  Some (createMeshFromVerticesTriangles [pt 1 0 0; pt 0 1 0] [0; 1; 0]).
Proof.
  apply (createMeshFromVertices_welds_then_indexes
           [pt 1 0 0; pt 0 1 0; pt 1 0 0]).
  - vm_compute. discriminate.
  - vm_compute. reflexivity.
  - repeat constructor.
Defined.

Lemma run_app points more :
  (VertexWelder.run points).1 `prefix_of` (VertexWelder.run (points ++ more)).1 /\
  (VertexWelder.run points).2 `prefix_of` (VertexWelder.run (points ++ more)).2.
Proof.
  induction more as [|p more [IH1 IH2]] using rev_ind.
  { by rewrite app_nil_r. }
  rewrite app_assoc, run_snoc. unfold VertexWelder.step.
  destruct (VertexWelder.first_seen p _); cbn [fst snd]; split;
    try done; by apply prefix_app_r.
Qed.

Lemma usable_whole (s : list Eigen.Vector3d) :
  (length s mod 3 = 0)%nat -> usable s = s.
Proof.
  intros Hm. unfold usable. apply take_ge.
  pose proof (Nat.div_mod_eq (length s) 3). lia.
Qed.

Lemma usable_app (s1 s2 : list Eigen.Vector3d) :
  (length s1 mod 3 = 0)%nat -> usable (s1 ++ s2) = s1 ++ usable s2.
Proof.
  intros Hm. unfold usable. rewrite length_app.
  pose proof (Nat.div_mod_eq (length s1) 3) as Hd. rewrite Hm, Nat.add_0_r in Hd.
  set (k := (length s1 / 3)%nat) in *.
  replace ((length s1 + length s2) / 3)%nat with (k + length s2 / 3)%nat.
  - rewrite take_app_ge by lia.
    do 2 f_equal. lia.
  - rewrite Hd, (Nat.mul_comm 3 k), Nat.div_add_l by lia. done.
Qed.

(** X20: welding is stable under appending: points added after a whole
    number of triangles never renumber what came before.  For points
    without NaN (within the 32-bit counters), the vertex array and the
    index array of the mesh of [s1] (a multiple of three points, at least
    three) are prefixes of those of the mesh of [s1 ++ s2]. *)
Theorem welding_prefix_stable (s1 s2 : list Eigen.Vector3d) :
  (3 <= length s1)%nat -> (length s1 mod 3 = 0)%nat ->
  fits (s1 ++ s2) ->
  Forall (fun p => Eigen.has_nan p = false) (s1 ++ s2) ->
  exists m1 m,
    (createMeshFromVertices s1).2 = Some m1 /\
    (createMeshFromVertices (s1 ++ s2)).2 = Some m /\
    vertices m1 `prefix_of` vertices m /\
    triangles m1 `prefix_of` triangles m.
Proof.
  intros H3 Hm Hfit Hnan.
  pose proof Hnan as Hnan1. apply Forall_app in Hnan1 as [Hnan1 _].
  assert (Hfit1 : fits s1).
  { unfold fits in *. rewrite length_app in Hfit. lia. }
  destruct (createMeshFromVertices_welded s1) as (Hb1 & _ & _); [lia|done..|].
  destruct (createMeshFromVertices_welded (s1 ++ s2)) as (Hb & _ & _);
    [rewrite length_app; lia|done..|].
  cbv zeta in Hb1, Hb.
  rewrite usable_whole in Hb1 by done. rewrite usable_app in Hb by done.
  destruct (run_app s1 (usable s2)) as [[ext1 H1] [ext2 H2]].
  eexists _, _. split; [exact Hb1|]. split; [exact Hb|].
  rewrite !finish_vertices, !finish_triangles. cbn [assembled vertices triangles].
  rewrite H1, H2. split.
  - exists (coords Eigen.x Eigen.y Eigen.z ext1). unfold coords.
    by rewrite flat_map_app.
  - exists (map Some ext2). by rewrite map_app.
Qed.

Lemma welding_prefix_stable_witness :
  exists m1 m,
    (createMeshFromVertices [pt 1 0 0; pt 0 1 0; pt 1 0 0]).2 = Some m1 /\
    (createMeshFromVertices
       ([pt 1 0 0; pt 0 1 0; pt 1 0 0] ++ [pt 0 1 0; pt 5 5 5; pt 1 0 0])).2
      = Some m /\
    vertices m1 `prefix_of` vertices m /\
    triangles m1 `prefix_of` triangles m.
Proof.
  apply (welding_prefix_stable [pt 1 0 0; pt 0 1 0; pt 1 0 0]
                               [pt 0 1 0; pt 5 5 5; pt 1 0 0]).
  - cbn. lia.
  - reflexivity.
  - vm_compute. reflexivity.
  - repeat constructor.
Defined.

(** Index [i] is not emitted before index [i - 1] has been. *)
Lemma run_in_discovery_order points (k : nat) (i : Z) :
  (VertexWelder.run points).2 !! k = Some i ->
  0 <= i /\
  (i = 0 \/
   exists j, (j < k)%nat /\ (VertexWelder.run points).2 !! j = Some (i - 1)).
Proof.
  revert k i. induction points as [|p points IH] using rev_ind; intros k i; [done|].
  rewrite run_snoc.
  pose proof (run_length_indices points) as Hlen.
  pose proof (run_covers points) as Hcov.
  set (sp := VertexWelder.run points) in *.
  assert (Hnew : forall n : nat, (n <= length sp.1)%nat ->
            forall tail, (sp.2 ++ tail) !! k = Some i ->
            tail = [Z.of_nat n] ->
            0 <= i /\
            (i = 0 \/ exists j, (j < k)%nat /\ (sp.2 ++ tail) !! j = Some (i - 1))).
  { intros n Hn tail Hk ->.
    destruct (decide (k < length sp.2)%nat) as [Hlt|Hge].
    - rewrite lookup_app_l in Hk by done.
      destruct (IH k i Hk) as [H0 [->|(j & Hj & Hji)]]; [auto|].
      split; [done|]. right. exists j. split; [done|].
      by apply lookup_app_l_Some.
    - pose proof (lookup_lt_Some _ _ _ Hk) as Hb. rewrite length_app in Hb.
      cbn [length] in Hb. assert (k = length sp.2) as -> by lia.
      rewrite list_lookup_middle in Hk by done. injection Hk as <-.
      split; [lia|]. destruct n as [|n]; [by left|]. right.
      pose proof (Hcov n ltac:(lia)) as Hin.
      apply list_elem_of_lookup in Hin as [j Hj].
      exists j. split; [by eapply lookup_lt_Some|].
      replace (Z.of_nat (S n) - 1) with (Z.of_nat n) by lia.
      by apply lookup_app_l_Some. }
  unfold VertexWelder.step.
  destruct (VertexWelder.first_seen p sp.1) as [n|] eqn:E; cbn [fst snd]; intros Hk.
  - eapply Hnew; [|exact Hk|reflexivity].
    destruct (first_seen_Some _ _ _ E) as (q & Hq & _).
    apply lookup_lt_Some in Hq. lia.
  - eapply Hnew; [|exact Hk|reflexivity]. lia.
Qed.

(** X22: two input points get the same index exactly when they are equal:
    for at least three points without NaN (within the 32-bit counters) and
    any two positions below [3 * floor(count / 3)], the index array of the
    mesh holds the same value at both exactly when the two points are
    equal under component-wise [==]. *)
Theorem welding_same_index_iff_equal (source : list Eigen.Vector3d) :
  3 <= Z.of_nat (length source) -> fits source ->
  Forall (fun p => Eigen.has_nan p = false) source ->
  exists mesh,
    (createMeshFromVertices source).2 = Some mesh /\
    forall (k k' : nat) (p p' : Eigen.Vector3d),
      (k < 3 * (length source / 3))%nat -> (k' < 3 * (length source / 3))%nat ->
      source !! k = Some p -> source !! k' = Some p' ->
      (Array.load (triangles mesh) (Z.of_nat k) =
       Array.load (triangles mesh) (Z.of_nat k') <->
       Eigen.eqb p p' = true).
Proof.
  intros H3 Hfit Hnan.
  destruct (createMeshFromVertices_welded source H3 Hfit Hnan)
    as (Hbuilt & Hnd & Hnf).
  cbv zeta in Hbuilt. set (sp := VertexWelder.run (usable source)) in *.
  eexists. split; [exact Hbuilt|]. intros k k' p p' Hk Hk' Hp Hp'.
  rewrite finish_triangles. cbn [assembled triangles]. rewrite !load_index.
  assert (Hu : Forall (fun p => Eigen.has_nan p = false) (usable source)).
  { unfold usable. by apply Forall_take. }
  destruct (run_round_trip (usable source) Hu k p) as (i & q & Hi & Hq & He).
  { unfold usable. by rewrite lookup_take_lt. }
  destruct (run_round_trip (usable source) Hu k' p') as (i' & q' & Hi' & Hq' & He').
  { unfold usable. by rewrite lookup_take_lt. }
  fold sp in Hi, Hq, Hi', Hq'. rewrite Hi, Hi'.
  rewrite Forall_forall in Hnan, Hnf.
  assert (Np : Eigen.has_nan p = false)
    by (eapply Hnan, list_elem_of_lookup_2; eassumption).
  assert (Np' : Eigen.has_nan p' = false)
    by (eapply Hnan, list_elem_of_lookup_2; eassumption).
  assert (Nq : Eigen.has_nan q = false)
    by (eapply Hnf, list_elem_of_lookup_2; eassumption).
  assert (Nq' : Eigen.has_nan q' = false)
    by (eapply Hnf, list_elem_of_lookup_2; eassumption).
  apply eqb_vkey in He, He'; [|done..]. rewrite eqb_vkey by done. split.
  - intros [= Hii]. apply Nat2Z.inj in Hii. subst i'.
    rewrite Hq in Hq'. injection Hq' as <-. congruence.
  - intros Hpp. do 2 f_equal.
    apply (NoDup_lookup _ i i' (vkey q) Hnd); rewrite list_lookup_fmap.
    + by rewrite Hq.
    + rewrite Hq'. cbn. congruence.
Qed.

Lemma welding_same_index_iff_equal_witness :
  exists mesh,
    (createMeshFromVertices [pt 1 0 0; pt 0 1 0; pt 1 0 0]).2 = Some mesh /\
    forall (k k' : nat) (p p' : Eigen.Vector3d),
      (k < 3 * (3 / 3))%nat -> (k' < 3 * (3 / 3))%nat ->
      [pt 1 0 0; pt 0 1 0; pt 1 0 0] !! k = Some p ->
      [pt 1 0 0; pt 0 1 0; pt 1 0 0] !! k' = Some p' ->
      (Array.load (triangles mesh) (Z.of_nat k) =
       Array.load (triangles mesh) (Z.of_nat k') <->
       Eigen.eqb p p' = true).
Proof.
  apply (welding_same_index_iff_equal [pt 1 0 0; pt 0 1 0; pt 1 0 0]).
  - vm_compute. discriminate.
  - vm_compute. reflexivity.
  - repeat constructor.
Defined.

(** X23: vertices are numbered as they are met.  In the index array of
    the mesh built from at least three points without NaN (within the
    32-bit counters) the first entry is 0 and an index [i > 0] occurs only
    after index [i - 1] has occurred. *)
Theorem welding_indices_in_discovery_order (source : list Eigen.Vector3d) :
  3 <= Z.of_nat (length source) -> fits source ->
  Forall (fun p => Eigen.has_nan p = false) source ->
  exists mesh,
    (createMeshFromVertices source).2 = Some mesh /\
    Array.load (triangles mesh) 0 = Some 0 /\
    forall (k : nat) (i : Z),
      Array.load (triangles mesh) (Z.of_nat k) = Some i ->
      0 <= i /\
      (i = 0 \/
       exists j : nat,
         (j < k)%nat /\ Array.load (triangles mesh) (Z.of_nat j) = Some (i - 1)).
Proof.
  intros H3 Hfit Hnan.
  destruct (createMeshFromVertices_welded source H3 Hfit Hnan) as (Hbuilt & _ & _).
  cbv zeta in Hbuilt. set (sp := VertexWelder.run (usable source)) in *.
  eexists. split; [exact Hbuilt|].
  rewrite finish_triangles. cbn [assembled triangles].
  assert (Hall : forall (k : nat) (i : Z),
            Array.load (map Some sp.2) (Z.of_nat k) = Some i ->
            0 <= i /\
            (i = 0 \/
             exists j : nat,
               (j < k)%nat /\
               Array.load (map Some sp.2) (Z.of_nat j) = Some (i - 1))).
  { intros k i. rewrite load_index. intros Hk.
    destruct (run_in_discovery_order _ _ _ Hk) as [H0 [->|(j & Hj & Hji)]];
      [auto|].
    split; [done|]. right. exists j. by rewrite load_index. }
  split; [|exact Hall].
  assert (Hlen : (0 < length sp.2)%nat).
  { unfold sp. rewrite run_length_indices, length_usable.
    assert (1 <= length source / 3)%nat by (apply Nat.div_le_lower_bound; lia).
    lia. }
  destruct (lookup_lt_is_Some_2 sp.2 0 Hlen) as [i Hi].
  change 0 with (Z.of_nat 0). rewrite load_index, Hi. f_equal.
  destruct (Hall 0%nat i) as [_ [->|(j & Hj & _)]]; [|done|lia].
  by rewrite load_index.
Qed.

Lemma welding_indices_in_discovery_order_witness :
  exists mesh,
    (createMeshFromVertices [pt 1 0 0; pt 0 1 0; pt 1 0 0]).2 = Some mesh /\
    Array.load (triangles mesh) 0 = Some 0 /\
    forall (k : nat) (i : Z),
      Array.load (triangles mesh) (Z.of_nat k) = Some i ->
      0 <= i /\
      (i = 0 \/
       exists j : nat,
         (j < k)%nat /\ Array.load (triangles mesh) (Z.of_nat j) = Some (i - 1)).
Proof.
  apply (welding_indices_in_discovery_order [pt 1 0 0; pt 0 1 0; pt 1 0 0]).
  - vm_compute. discriminate.
  - vm_compute. reflexivity.
  - repeat constructor.
Defined.

(** ** The comparator of the set *)

Lemma ltb_irrefl (a : double) : Double.ltb a a = false.
Proof.
  unfold Double.ltb, SFltb, SFcompare.
  destruct a as [[]|[]| |[] m e]; try reflexivity;
    rewrite Z.compare_refl, ?Pos.compare_cont_refl; cbn;
    rewrite ?Pos.compare_refl; reflexivity.
Qed.

Lemma ltb_nan_r (a : double) : Double.ltb a Double.nan = false.
Proof. by destruct a as [[]|[]| |[] m e]. Qed.

(** X14: on vertices without NaN the comparator of the welding set is a
    strict weak order, as [std::set] requires: it is irreflexive,
    asymmetric and transitive, and two vertices that it does not order
    are exactly those equal under component-wise [==]. *)
Theorem ltLocalVertexValue_strict_weak_order (p q r : detail.LocalVertexType) :
  nan_free p -> nan_free q -> nan_free r ->
  detail.ltLocalVertexValue p p = false /\
  (detail.ltLocalVertexValue p q = true ->
   detail.ltLocalVertexValue q p = false) /\
  (detail.ltLocalVertexValue p q = true ->
   detail.ltLocalVertexValue q r = true ->
   detail.ltLocalVertexValue p r = true) /\
  (detail.ltLocalVertexValue p q = false /\
   detail.ltLocalVertexValue q p = false <->
   Eigen.eqb (detail.position p) (detail.position q) = true).
Proof.
  intros Hp Hq Hr.
  pose proof (ltLocalVertexValue_key p p Hp Hp) as Kpp.
  pose proof (ltLocalVertexValue_key p q Hp Hq) as Kpq.
  pose proof (ltLocalVertexValue_key q p Hq Hp) as Kqp.
  pose proof (ltLocalVertexValue_key q r Hq Hr) as Kqr.
  pose proof (ltLocalVertexValue_key p r Hp Hr) as Kpr.
  assert (Irr : forall k : (Z * Z * Z) * (Z * Z * Z) * (Z * Z * Z), ~ lexico k k)
    by (intros k; apply (irreflexivity lexico k)).
  split; [|split; [|split]].
  - destruct (detail.ltLocalVertexValue p p); [|done].
    exfalso. apply (Irr (key p)). by apply Kpp.
  - intros H1. destruct (detail.ltLocalVertexValue q p); [|done].
    exfalso. apply (Irr (key p)). trans (key q); [by apply Kpq|by apply Kqp].
  - intros H1 H2. apply Kpr. trans (key q); [by apply Kpq|by apply Kqr].
  - rewrite (eqb_vkey _ _ Hp Hq). fold (key p) (key q). split.
    + intros [H1 H2]. apply not_lexico_eq; intros H.
      * apply Kpq in H. congruence.
      * apply Kqp in H. congruence.
    + intros He. split.
      * destruct (detail.ltLocalVertexValue p q); [|done].
        exfalso. apply (Irr (key p)). rewrite He at 2. by apply Kpq.
      * destruct (detail.ltLocalVertexValue q p); [|done].
        exfalso. apply (Irr (key p)). rewrite He at 1. by apply Kqp.
Qed.

Lemma ltLocalVertexValue_strict_weak_order_witness :
  let p := detail.of_vector (pt 0 0 0) in
  let q := detail.of_vector (pt 0 1 0) in
  let r := detail.of_vector (pt 1 0 0) in
  detail.ltLocalVertexValue p p = false /\
  (detail.ltLocalVertexValue p q = true ->
   detail.ltLocalVertexValue q p = false) /\
  (detail.ltLocalVertexValue p q = true ->
   detail.ltLocalVertexValue q r = true ->
   detail.ltLocalVertexValue p r = true) /\
  (detail.ltLocalVertexValue p q = false /\
   detail.ltLocalVertexValue q p = false <->
   Eigen.eqb (detail.position p) (detail.position q) = true).
Proof.
  cbv zeta.
  apply (ltLocalVertexValue_strict_weak_order
           (detail.of_vector (pt 0 0 0)) (detail.of_vector (pt 0 1 0))
           (detail.of_vector (pt 1 0 0))); reflexivity.
Defined.

(** X15: a NaN is ordered against nothing, so it welds with anything.  A
    vertex whose x is NaN is neither before nor after any vertex with the
    same y and z, whatever that vertex's x; hence three points (NaN, y, z),
    (a, y, z), (b, y, z) give a mesh of a single vertex, (NaN, y, z), and
    the index triple (0, 0, 0), for all a, b, y, z.  (The set never holds
    more than that one element, so each search consists of the two
    comparisons of the first part.) *)
Theorem welding_nan_absorbs (a b y z : double) :
  let p := Eigen.Vec3 Double.nan y z in
  (forall c,
     detail.ltLocalVertexValue (detail.of_vector p)
                               (detail.of_vector (Eigen.Vec3 c y z)) = false /\
     detail.ltLocalVertexValue (detail.of_vector (Eigen.Vec3 c y z))
                               (detail.of_vector p) = false) /\
  exists mesh,
    createMeshFromVertices [p; Eigen.Vec3 a y z; Eigen.Vec3 b y z]
      = ([], Some mesh) /\
    vertex_count mesh = 1 /\
    vertices mesh = [Some Double.nan; Some y; Some z] /\
    triangle_count mesh = 1 /\
    triangles mesh = [Some 0; Some 0; Some 0].
Proof.
  cbv zeta.
  assert (Hcmp : forall c,
     detail.ltLocalVertexValue (detail.of_vector (Eigen.Vec3 Double.nan y z))
                               (detail.of_vector (Eigen.Vec3 c y z)) = false /\
     detail.ltLocalVertexValue (detail.of_vector (Eigen.Vec3 c y z))
                               (detail.of_vector (Eigen.Vec3 Double.nan y z)) = false).
  { intros c. unfold detail.ltLocalVertexValue, Double.gtb. cbn [detail.of_vector
      detail.x detail.y detail.z Eigen.x Eigen.y Eigen.z].
    rewrite !ltb_nan_r, !ltb_irrefl. by split. }
  split; [exact Hcmp|].
  assert (Hfind : forall c i,
    StdSet.find detail.ltLocalVertexValue (detail.of_vector (Eigen.Vec3 c y z))
      (StdSet.Node StdSet.Black StdSet.Leaf
         (detail.set_index (detail.of_vector (Eigen.Vec3 Double.nan y z)) i)
         StdSet.Leaf) =
    Some (detail.set_index (detail.of_vector (Eigen.Vec3 Double.nan y z)) i)).
  { intros c i. unfold StdSet.find. cbn [StdSet.lower_bound].
    destruct (Hcmp c) as [H1 H2].
    change (detail.ltLocalVertexValue
              (detail.set_index (detail.of_vector (Eigen.Vec3 Double.nan y z)) i)
              (detail.of_vector (Eigen.Vec3 c y z)))
      with (detail.ltLocalVertexValue
              (detail.of_vector (Eigen.Vec3 Double.nan y z))
              (detail.of_vector (Eigen.Vec3 c y z))).
    rewrite H1. cbn [negb].
    change (detail.ltLocalVertexValue
              (detail.of_vector (Eigen.Vec3 c y z))
              (detail.set_index (detail.of_vector (Eigen.Vec3 Double.nan y z)) i))
      with (detail.ltLocalVertexValue
              (detail.of_vector (Eigen.Vec3 c y z))
              (detail.of_vector (Eigen.Vec3 Double.nan y z))).
    by rewrite H2. }
  set (p := Eigen.Vec3 Double.nan y z) in *.
  pose proof (createMeshFromVertices_assembled
                [p; Eigen.Vec3 a y z; Eigen.Vec3 b y z]) as Hbuilt.
  cbv zeta in Hbuilt.
  change (usable [p; Eigen.Vec3 a y z; Eigen.Vec3 b y z])
    with [p; Eigen.Vec3 a y z; Eigen.Vec3 b y z] in Hbuilt.
  cbn [fold_left] in Hbuilt.
  set (one_vertex := StdSet.Node StdSet.Black StdSet.Leaf (tag 0 p) StdSet.Leaf).
  assert (Hst : weld (Eigen.Vec3 b y z)
                  (weld (Eigen.Vec3 a y z) (weld p (StdSet.empty, [])))
                = (one_vertex, [0; 0; 0])).
  { change (weld p (StdSet.empty, [])) with (one_vertex, [0]).
    unfold weld, one_vertex. unfold tag at 1 3. rewrite Hfind. cbn [app].
    unfold tag at 1 3. by rewrite Hfind. }
  rewrite Hst in Hbuilt. cbn [fst snd] in Hbuilt.
  change (std_sort detail.ltLocalVertexIndex (StdSet.elements one_vertex))
    with [tag 0 p] in Hbuilt.
  eexists. split.
  - rewrite (surjective_pairing (createMeshFromVertices _)). f_equal.
    + by rewrite createMeshFromVertices_log.
    + apply Hbuilt; vm_compute; [discriminate|reflexivity].
  - repeat split.
Qed.

(** ** The pre-indexed overload *)

(** X8: the pre-indexed overload copies positions and indices verbatim:
    one vertex per position and one triangle per index triple, the arrays
    holding the given values in the given order. *)
Theorem createMeshFromVerticesTriangles_verbatim
    (verts : list Eigen.Vector3d) (tris : list Z) (k : nat) :
  fits verts -> length tris = (3 * k)%nat -> Z.of_nat k < UInt.modulus ->
  let mesh := createMeshFromVerticesTriangles verts tris in
  vertex_count mesh = Z.of_nat (length verts) /\
  triangle_count mesh = Z.of_nat k /\
  vertices mesh = coords Eigen.x Eigen.y Eigen.z verts /\
  triangles mesh = map Some tris.
Proof.
  intros Hfit Hlen Hk. cbv zeta. unfold fits in Hfit.
  assert (Hnt : UInt.wrap (Z.of_nat (length tris) / 3) = Z.of_nat k).
  { rewrite Hlen, Nat2Z.inj_mul, Z.mul_comm, Z.div_mul by lia.
    apply wrap_small. lia. }
  split; [|split; [|split]].
  - rewrite createMeshFromVerticesTriangles_vertex_count.
    apply of_size_small. lia.
  - unfold createMeshFromVerticesTriangles. cbv zeta.
    rewrite finish_triangle_count, Hnt.
    rewrite fill_vertices_coords; [reflexivity|done|].
    unfold Mesh_new, Array.new. cbn [vertices]. f_equal.
    rewrite of_size_small by lia. lia.
  - by apply createMeshFromVerticesTriangles_positions.
  - unfold createMeshFromVerticesTriangles. cbv zeta.
    rewrite finish_triangles, Hnt.
    rewrite fill_vertices_coords; [|done|].
    + cbn [set_triangles set_vertices triangles Mesh_new].
      apply copy_all. rewrite Hlen. lia.
    + unfold Mesh_new, Array.new. cbn [vertices]. f_equal.
      rewrite of_size_small by lia. lia.
Qed.

Lemma createMeshFromVerticesTriangles_verbatim_witness :
  let mesh :=
    createMeshFromVerticesTriangles [pt 0 0 0; pt 1 0 0; pt 0 0 0] [0; 1; 2] in
  vertex_count mesh = 3 /\
  triangle_count mesh = 1 /\
  vertices mesh = coords Eigen.x Eigen.y Eigen.z [pt 0 0 0; pt 1 0 0; pt 0 0 0] /\
  triangles mesh = map Some [0; 1; 2].
Proof.
  apply (createMeshFromVerticesTriangles_verbatim
           [pt 0 0 0; pt 1 0 0; pt 0 0 0] [0; 1; 2] 1).
  - vm_compute. reflexivity.
  - reflexivity.
  - vm_compute. reflexivity.
Defined.

(** ** Scene flattening, further *)

Lemma push_faces offset faces tris :
  fold_left (push_face offset) faces tris =
  tris ++ flat_map (kept_face offset) faces.
Proof.
  revert tris. induction faces as [|f faces IH]; intros tris.
  { cbn. by rewrite app_nil_r. }
  cbn [fold_left flat_map]. rewrite IH. unfold push_face, kept_face.
  destruct (Assimp.mIndices f) as [|i0 [|i1 [|i2 [|]]]];
    by rewrite <- ?app_assoc, ?app_nil_r.
Qed.

(** X4: flattening keeps exactly the faces with three indices, each index
    offset by the number of vertices collected before the face's mesh;
    other faces add nothing, so the triangle list grows by whole
    triples. *)
Theorem extract_mesh_triangles (scene : Assimp.aiScene)
    (transform : Assimp.aiMatrix4x4) (scale : Eigen.Vector3d)
    (st : FlatGeometry) (k : Z) :
  (extract_mesh scene transform scale st k).2 =
    st.2 ++ flat_map (kept_face (UInt.of_size (length st.1)))
                     (Assimp.mFaces (Assimp.mesh_at scene k)) /\
  (forall offset f, length (kept_face offset f) = 3%nat \/ kept_face offset f = []) /\
  kept_face 5 (Assimp.mkFace [0; 1; 2; 3]) = [] /\
  kept_face 5 (Assimp.mkFace [0; 1; 2]) = [5; 6; 7].
Proof.
  split; [apply push_faces|]. split; [|split; reflexivity].
  intros offset f. unfold kept_face.
  destruct (Assimp.mIndices f) as [|i0 [|i1 [|i2 [|]]]]; auto.
Qed.

Lemma extract_children_vertices scene cs transform scale st :
  (fold_left (fun st child => extractMeshData scene child transform scale st)
             cs st).1 =
  st.1 ++ flat_map (fun c => flattened_vertices scene c transform scale) cs.
Proof.
  revert st. induction cs as [|c cs IH]; intros st; cbn [fold_left flat_map].
  - by rewrite app_nil_r.
  - by rewrite IH, extractMeshData_vertices, <- app_assoc.
Qed.

Lemma mesh_at_in_range scene k :
  Forall faces_in_range (Assimp.mMeshes scene) ->
  faces_in_range (Assimp.mesh_at scene k).
Proof.
  intros Hall. unfold Assimp.mesh_at.
  destruct (nth_in_or_default (Z.to_nat k) (Assimp.mMeshes scene)
                              (Assimp.mkAiMesh [] [])) as [Hin| ->].
  - rewrite Forall_forall in Hall. apply Hall. by apply list_elem_of_In.
  - constructor.
Qed.

Lemma kept_face_in_range (offset n total : Z) (f : Assimp.aiFace) :
  0 <= offset -> offset + n <= total -> total < UInt.modulus ->
  Forall (fun i => 0 <= i < n) (Assimp.mIndices f) ->
  Forall (fun i => 0 <= i < total) (kept_face offset f).
Proof.
  intros H0 Hle Hfit Hf. unfold kept_face.
  destruct (Assimp.mIndices f) as [|i0 [|i1 [|i2 [|]]]]; try (by constructor).
  apply Forall_cons in Hf as [? Hf]. apply Forall_cons in Hf as [? Hf].
  apply Forall_cons in Hf as [? _].
  rewrite (add_small offset i0), (add_small offset i1), (add_small offset i2)
    by lia.
  apply Forall_cons; split; [lia|]. apply Forall_cons; split; [lia|].
  apply Forall_cons; split; [lia|]. constructor.
Qed.

Lemma well_indexed_grow (st : FlatGeometry) verts tris :
  well_indexed st ->
  Forall (fun i => 0 <= i < Z.of_nat (length (st.1 ++ verts))) tris ->
  well_indexed (st.1 ++ verts, st.2 ++ tris).
Proof.
  unfold well_indexed. cbn [fst snd]. intros Hst Hnew.
  apply Forall_app. split; [|done].
  eapply Forall_impl; [exact Hst|]. intros i Hi. cbv beta in Hi |- *.
  rewrite length_app. lia.
Qed.

Lemma extract_mesh_well_indexed scene transform scale st k :
  Forall faces_in_range (Assimp.mMeshes scene) ->
  well_indexed st ->
  Z.of_nat (length (extract_mesh scene transform scale st k).1) < UInt.modulus ->
  well_indexed (extract_mesh scene transform scale st k).
Proof.
  intros Hscene Hst. rewrite extract_mesh_vertices.
  unfold extract_mesh. cbn [fst snd]. rewrite push_all, push_faces.
  intros Hfit. apply well_indexed_grow; [done|].
  rewrite length_app, length_map in Hfit |- *.
  rewrite of_size_small by lia.
  apply Forall_flat_map.
  pose proof (mesh_at_in_range scene k Hscene) as Hk. unfold faces_in_range in Hk.
  eapply Forall_impl; [exact Hk|]. intros f Hf. cbv beta in Hf |- *.
  eapply kept_face_in_range; [| |exact Hfit|exact Hf]; lia.
Qed.

Lemma extract_meshes_well_indexed scene transform scale ms st :
  Forall faces_in_range (Assimp.mMeshes scene) ->
  well_indexed st ->
  Z.of_nat (length (fold_left (extract_mesh scene transform scale) ms st).1)
    < UInt.modulus ->
  well_indexed (fold_left (extract_mesh scene transform scale) ms st).
Proof.
  intros Hscene. revert st. induction ms as [|k ms IH]; intros st Hst Hfit; [done|].
  cbn [fold_left] in Hfit |- *. apply IH; [|done].
  apply extract_mesh_well_indexed; [done..|].
  rewrite extract_meshes_vertices, length_app in Hfit. lia.
Qed.

(** Flattening keeps the indices within the vertices collected, as long
    as the importer's faces are within their meshes and the vertices can
    be counted in 32 bits. *)
Lemma extractMeshData_well_indexed scene node :
  Forall faces_in_range (Assimp.mMeshes scene) ->
  forall parent scale st,
    well_indexed st ->
    Z.of_nat (length (extractMeshData scene node parent scale st).1)
      < UInt.modulus ->
    well_indexed (extractMeshData scene node parent scale st).
Proof.
  intros Hscene.
  induction node as [local ms cs IH] using aiNode_tree_ind.
  intros parent scale st Hst. cbn [extractMeshData].
  set (cumulative := Assimp.mul parent local).
  intros Hfit.
  assert (Hms : well_indexed (fold_left (extract_mesh scene cumulative scale) ms st)).
  { apply extract_meshes_well_indexed; [done..|].
    rewrite extract_children_vertices, length_app in Hfit. lia. }
  revert Hms Hfit.
  generalize (fold_left (extract_mesh scene cumulative scale) ms st).
  induction IH as [|c cs Hc _ IHcs]; intros st' Hst' Hfit; [done|].
  cbn [fold_left] in Hfit |- *. apply IHcs; [|done].
  apply Hc; [done|].
  rewrite extract_children_vertices, length_app in Hfit. lia.
Qed.

Lemma kept_face_length offset f :
  length (kept_face offset f) = 3%nat \/ kept_face offset f = [].
Proof.
  unfold kept_face.
  destruct (Assimp.mIndices f) as [|i0 [|i1 [|i2 [|]]]]; auto.
Qed.

Lemma kept_faces_length offset faces :
  exists n, length (flat_map (kept_face offset) faces) = (3 * n)%nat.
Proof.
  induction faces as [|f faces [n IH]]; [by exists 0%nat|].
  cbn [flat_map]. rewrite length_app, IH.
  destruct (kept_face_length offset f) as [-> | ->].
  - exists (S n). lia.
  - exists n. cbn. lia.
Qed.

Definition whole_triples (st : FlatGeometry) : Prop :=
  exists n, length st.2 = (3 * n)%nat.

Lemma extract_mesh_whole_triples scene transform scale st k :
  whole_triples st -> whole_triples (extract_mesh scene transform scale st k).
Proof.
  intros [n Hn]. unfold extract_mesh, whole_triples. cbn [snd].
  rewrite push_faces, length_app, Hn.
  destruct (kept_faces_length (UInt.of_size (length st.1))
              (Assimp.mFaces (Assimp.mesh_at scene k))) as [m ->].
  exists (n + m)%nat. lia.
Qed.

(** The flat index list always holds whole triples. *)
Lemma extractMeshData_whole_triples scene node :
  forall parent scale st,
    whole_triples st -> whole_triples (extractMeshData scene node parent scale st).
Proof.
  induction node as [local ms cs IH] using aiNode_tree_ind.
  intros parent scale st Hst. cbn [extractMeshData].
  set (cumulative := Assimp.mul parent local).
  assert (Hms : whole_triples (fold_left (extract_mesh scene cumulative scale) ms st)).
  { clear IH. revert st Hst. induction ms as [|k ms IHms]; intros st Hst; [done|].
    cbn [fold_left]. by apply IHms, extract_mesh_whole_triples. }
  revert Hms. generalize (fold_left (extract_mesh scene cumulative scale) ms st).
  induction IH as [|c cs Hc _ IHcs]; intros st' Hst'; [done|].
  cbn [fold_left]. by apply IHcs, Hc.
Qed.

(** X16: a mesh built from a scene is well formed when the scene is: if
    every face of every mesh of the scene names vertices of its own mesh,
    and the flattened vertices and triangles can be counted in the 32-bit
    counters, then the mesh [createMeshFromAsset] returns stores exactly
    the flattened positions and indices, its counts are their numbers, and
    every stored index is below its vertex count. *)
Theorem createMeshFromAsset_well_indexed
    (scene : Assimp.aiScene) (scale : Eigen.Vector3d) (resource_name : string)
    (mesh : Mesh) :
  let flat := extractMeshData scene (Assimp.mRootNode scene) Assimp.identity
                              scale ([], []) in
  Forall faces_in_range (Assimp.mMeshes scene) ->
  3 * Z.of_nat (length flat.1) < UInt.modulus ->
  Z.of_nat (length flat.2) < UInt.modulus ->
  (createMeshFromAssetScaled scene scale resource_name).2 = Some mesh ->
  vertex_count mesh = Z.of_nat (length flat.1) /\
  vertices mesh = coords Eigen.x Eigen.y Eigen.z flat.1 /\
  3 * triangle_count mesh = Z.of_nat (length flat.2) /\
  triangles mesh = map Some flat.2 /\
  Forall (fun c => exists i, c = Some i /\ 0 <= i < vertex_count mesh)
         (triangles mesh).
Proof.
  intros flat Hscene Hv Ht Hmesh.
  assert (Hwi : well_indexed flat).
  { apply extractMeshData_well_indexed; [done|apply Forall_nil_2|fold flat; lia]. }
  destruct (extractMeshData_whole_triples scene (Assimp.mRootNode scene)
              Assimp.identity scale ([], [])) as [n Hn]; [by exists 0%nat|].
  fold flat in Hn.
  unfold createMeshFromAssetScaled in Hmesh.
  destruct (Assimp.HasMeshes scene); [|done]. cbn [negb] in Hmesh.
  fold flat in Hmesh. destruct flat as [verts tris] eqn:Eflat.
  cbn [fst snd] in *.
  assert (mesh = createMeshFromVerticesTriangles verts tris) as ->.
  { destruct verts; [done|]. destruct tris; [done|]. by injection Hmesh. }
  rewrite (createMeshFromVerticesTriangles_assembled verts tris n);
    [|done|done|lia].
  rewrite finish_vertex_count, finish_vertices, finish_triangle_count,
    finish_triangles.
  cbn [assembled vertex_count triangle_count vertices triangles].
  split; [done|]. split; [done|]. split; [lia|]. split; [done|].
  apply Forall_fmap. eapply Forall_impl; [exact Hwi|].
  intros i Hi. exists i. by split.
Qed.

Lemma createMeshFromAsset_well_indexed_witness :
  vertex_count (createMeshFromVerticesTriangles
                  [pt 0 0 0; pt 1 0 0; pt 0 0 0] [0; 1; 2]) = 3 /\
  vertices (createMeshFromVerticesTriangles
              [pt 0 0 0; pt 1 0 0; pt 0 0 0] [0; 1; 2]) =
    coords Eigen.x Eigen.y Eigen.z [pt 0 0 0; pt 1 0 0; pt 0 0 0] /\
  3 * triangle_count (createMeshFromVerticesTriangles
                        [pt 0 0 0; pt 1 0 0; pt 0 0 0] [0; 1; 2]) = 3 /\
  triangles (createMeshFromVerticesTriangles
               [pt 0 0 0; pt 1 0 0; pt 0 0 0] [0; 1; 2]) = map Some [0; 1; 2] /\
  Forall (fun c => exists i, c = Some i /\
            0 <= i < vertex_count (createMeshFromVerticesTriangles
                                     [pt 0 0 0; pt 1 0 0; pt 0 0 0] [0; 1; 2]))
         (triangles (createMeshFromVerticesTriangles
                       [pt 0 0 0; pt 1 0 0; pt 0 0 0] [0; 1; 2])).
Proof.
  apply (createMeshFromAsset_well_indexed seam_scene one "seam"
           (createMeshFromVerticesTriangles
              [pt 0 0 0; pt 1 0 0; pt 0 0 0] [0; 1; 2])).
  - repeat constructor; cbn; lia.
  - vm_compute. reflexivity.
  - vm_compute. reflexivity.
  - vm_compute. reflexivity.
Defined.

(** Two runs of the flattening that differ in the transforms and the scale
    only collect as many vertices and the same indices. *)
Definition same_shape (st st' : FlatGeometry) : Prop :=
  length st.1 = length st'.1 /\ st.2 = st'.2.

Lemma extract_mesh_same_shape scene t t' s s' st st' k :
  same_shape st st' ->
  same_shape (extract_mesh scene t s st k) (extract_mesh scene t' s' st' k).
Proof.
  intros [Hlen Htris]. unfold same_shape.
  rewrite !extract_mesh_vertices, !length_app, !length_map.
  unfold extract_mesh. cbn [snd]. by rewrite Hlen, Htris.
Qed.

Lemma extractMeshData_same_shape scene node :
  forall t t' s s' st st',
    same_shape st st' ->
    same_shape (extractMeshData scene node t s st)
               (extractMeshData scene node t' s' st').
Proof.
  induction node as [local ms cs IH] using aiNode_tree_ind.
  intros t t' s s' st st' Hst. cbn [extractMeshData].
  set (c1 := Assimp.mul t local). set (c2 := Assimp.mul t' local).
  assert (Hms : same_shape (fold_left (extract_mesh scene c1 s) ms st)
                           (fold_left (extract_mesh scene c2 s') ms st')).
  { clear IH. revert st st' Hst.
    induction ms as [|k ms IHms]; intros st st' Hst; [done|].
    cbn [fold_left]. by apply IHms, extract_mesh_same_shape. }
  revert Hms.
  generalize (fold_left (extract_mesh scene c1 s) ms st)
             (fold_left (extract_mesh scene c2 s') ms st').
  induction IH as [|c cs Hc _ IHcs]; intros u u' Hu; [done|].
  cbn [fold_left]. by apply IHcs, Hc.
Qed.

(** X17: the scale changes positions only.  Whatever two scales are given,
    [createMeshFromAsset] logs the same diagnostics, returns a mesh for
    the one exactly when it does for the other, and the two meshes have
    the same counts and the same index array. *)
Theorem createMeshFromAsset_scale_keeps_connectivity
    (scene : Assimp.aiScene) (s s' : Eigen.Vector3d) (resource_name : string) :
  (createMeshFromAssetScaled scene s resource_name).1 =
  (createMeshFromAssetScaled scene s' resource_name).1 /\
  match (createMeshFromAssetScaled scene s resource_name).2,
        (createMeshFromAssetScaled scene s' resource_name).2 with
  | Some m, Some m' =>
      vertex_count m = vertex_count m' /\
      triangle_count m = triangle_count m' /\
      triangles m = triangles m'
  | None, None => True
  | _, _ => False
  end.
Proof.
  unfold createMeshFromAssetScaled.
  destruct (Assimp.HasMeshes scene); cbn [negb]; [|done].
  destruct (extractMeshData_same_shape scene (Assimp.mRootNode scene)
              Assimp.identity Assimp.identity s s' ([], []) ([], []))
    as [Hlen Htris]; [done|].
  destruct (extractMeshData scene (Assimp.mRootNode scene) Assimp.identity s
                            ([], [])) as [verts tris].
  destruct (extractMeshData scene (Assimp.mRootNode scene) Assimp.identity s'
                            ([], [])) as [verts' tris'].
  cbn [fst snd] in Hlen, Htris. subst tris'.
  destruct verts as [|v verts], verts' as [|v' verts']; try done.
  destruct tris as [|i tris]; [done|]. cbn [fst snd].
  split; [done|].
  rewrite !createMeshFromVerticesTriangles_vertex_count.
  unfold createMeshFromVerticesTriangles. cbv zeta.
  rewrite !finish_triangle_count, !finish_triangles.
  cbn [set_triangles triangle_count triangles].
  split; [by rewrite Hlen|]. split.
  - transitivity (UInt.wrap (Z.of_nat (length (i :: tris)) / 3)).
    + by apply (for_loop_invariant
                  (fun m => triangle_count m =
                            UInt.wrap (Z.of_nat (length (i :: tris)) / 3))).
    + symmetry.
      by apply (for_loop_invariant
                  (fun m => triangle_count m =
                            UInt.wrap (Z.of_nat (length (i :: tris)) / 3))).
  - f_equal.
    transitivity (Array.new Z (3 * UInt.wrap (Z.of_nat (length (i :: tris)) / 3))).
    + by apply (for_loop_invariant
                  (fun m => triangles m =
                     Array.new Z (3 * UInt.wrap (Z.of_nat (length (i :: tris)) / 3)))).
    + symmetry.
      by apply (for_loop_invariant
                  (fun m => triangles m =
                     Array.new Z (3 * UInt.wrap (Z.of_nat (length (i :: tris)) / 3)))).
Qed.

(** ** Diagnostics and absence *)

Lemma createMeshFromAsset_diagnostics
    (scene : Assimp.aiScene) (scale : Eigen.Vector3d) (resource_name : string) :
  match (createMeshFromAssetScaled scene scale resource_name).2 with
  | Some _ => (createMeshFromAssetScaled scene scale resource_name).1 = []
  | None =>
      exists msg,
        (createMeshFromAssetScaled scene scale resource_name).1 = [logWarn msg]
  end.
Proof.
  unfold createMeshFromAssetScaled.
  destruct (Assimp.HasMeshes scene); cbn [negb]; [|by eexists].
  destruct (extractMeshData scene (Assimp.mRootNode scene) Assimp.identity
                            scale ([], [])) as [[|v verts] [|i tris]];
    cbn [fst snd]; try done; by eexists.
Qed.

(** X18: [createMeshFromAsset] returns no mesh exactly when the scene has
    no meshes or its flattening has no vertices or no triangles; it then
    logs exactly one diagnostic, a warning, and it logs nothing when it
    returns a mesh. *)
Theorem createMeshFromAsset_outcome
    (scene : Assimp.aiScene) (scale : Eigen.Vector3d) (resource_name : string) :
  let flat := extractMeshData scene (Assimp.mRootNode scene) Assimp.identity
                              scale ([], []) in
  let result := createMeshFromAssetScaled scene scale resource_name in
  (result.2 = None <->
   Assimp.HasMeshes scene = false \/ flat.1 = [] \/ flat.2 = []) /\
  (result.2 = None -> exists msg, result.1 = [logWarn msg]) /\
  (forall mesh, result.2 = Some mesh -> result.1 = []).
Proof.
  cbv zeta. unfold createMeshFromAssetScaled.
  destruct (Assimp.HasMeshes scene); cbn [negb].
  - destruct (extractMeshData scene (Assimp.mRootNode scene) Assimp.identity
                              scale ([], [])) as [[|v verts] [|i tris]];
      cbn [fst snd]; (split; [|split]); try done; eauto;
      try (split; [intros _; auto|done]).
    split; [done|]. intros [?|[?|?]]; done.
  - split; [|split]; [|eauto|done]. split; [auto|done].
Qed.

Lemma createMeshFromBinary_log
    (ReadFileFromMemory : Buffer -> Z -> string -> option Assimp.aiScene)
    (buffer : Buffer) (size : Z) (scale : Eigen.Vector3d) (hint : string) :
  let result := createMeshFromBinaryScaled ReadFileFromMemory buffer size scale
                                           hint in
  match result.2 with
  | Some _ => result.1 = []
  | None => result.1 = [] \/ exists msg, result.1 = [logWarn msg]
  end.
Proof.
  cbv zeta. unfold createMeshFromBinaryScaled.
  destruct buffer as [bytes|]; [|right; eauto].
  destruct (size <? 1); [right; eauto|].
  destruct (ReadFileFromMemory (Some bytes) size hint) as [scene|]; [|by left].
  pose proof (createMeshFromAsset_diagnostics scene scale hint) as H.
  destruct (createMeshFromAssetScaled scene scale hint) as [log [mesh|]];
    cbn [fst snd] in *; [done|by right].
Qed.

(** X5: a null buffer or a size below one gives no mesh and the warning
    "Cannot construct mesh from empty binary buffer", the importer not
    being called. *)
Theorem createMeshFromBinary_empty_buffer
    (ReadFileFromMemory : Buffer -> Z -> string -> option Assimp.aiScene)
    (buffer : Buffer) (size : Z) (scale : Eigen.Vector3d) (hint : string) :
  buffer = None \/ size < 1 ->
  createMeshFromBinaryScaled ReadFileFromMemory buffer size scale hint =
  ([logWarn "Cannot construct mesh from empty binary buffer"], None).
Proof.
  intros [->|Hsize]; [reflexivity|].
  unfold createMeshFromBinaryScaled. destruct buffer; [|reflexivity].
  by destruct (Z.ltb_spec size 1); [|lia].
Qed.

Lemma createMeshFromBinary_empty_buffer_witness :
  createMeshFromBinaryScaled (fun _ _ _ => Some two_node_scene)
                             (Some []) 0 one "mesh.stl"%string =
  ([logWarn "Cannot construct mesh from empty binary buffer"], None).
Proof.
  apply (createMeshFromBinary_empty_buffer
           (fun _ _ _ => Some two_node_scene) (Some []) 0 one "mesh.stl"%string).
  right. reflexivity.
Defined.

(** X19: [createMeshFromBinary] can fail without a word: it returns no
    mesh and logs nothing exactly when it is given a non-null buffer of
    size at least one for which the importer reports no scene.  Every
    other failure logs exactly one warning, and a success logs nothing. *)
Theorem createMeshFromBinary_silent_failure
    (ReadFileFromMemory : Buffer -> Z -> string -> option Assimp.aiScene)
    (buffer : Buffer) (size : Z) (scale : Eigen.Vector3d) (hint : string) :
  let result := createMeshFromBinaryScaled ReadFileFromMemory buffer size scale
                                           hint in
  (result = ([], None) <->
   buffer <> None /\ 1 <= size /\ ReadFileFromMemory buffer size hint = None) /\
  (result.2 = None -> result.1 <> [] -> exists msg, result.1 = [logWarn msg]) /\
  (forall mesh, result.2 = Some mesh -> result.1 = []).
Proof.
  cbv zeta.
  pose proof (createMeshFromBinary_log ReadFileFromMemory buffer size scale hint)
    as Hlog. cbv zeta in Hlog.
  split; [|split].
  - unfold createMeshFromBinaryScaled.
    destruct buffer as [bytes|]; [|split; [done|by intros [? _]]].
    destruct (Z.ltb_spec size 1); [split; [done|lia]|].
    destruct (ReadFileFromMemory (Some bytes) size hint) as [scene|].
    + split; [|by intros (_ & _ & ?)]. intros Heq.
      pose proof (createMeshFromAsset_diagnostics scene scale hint) as Hd.
      rewrite Heq in Hd. cbn [fst snd] in Hd. destruct Hd as [msg Hmsg].
      discriminate.
    + split; [|done]. intros _. split; [done|]. split; [lia|done].
  - intros Hnone Hne. rewrite Hnone in Hlog. by destruct Hlog.
  - intros mesh Hsome. by rewrite Hsome in Hlog.
Qed.

(** X6: [createMeshFromResource] never fails without a word, and says
    nothing when it succeeds.  Whatever the retriever and the importer
    do: a returned mesh comes with an empty log; an exception of the
    retriever gives no mesh and its message as the only diagnostic, of
    error severity; a payload of size zero gives no mesh and one warning;
    and every other failure ends with the warning "Assimp reports no
    scene in <resource>", whether or not the importer produced a scene. *)
Theorem createMeshFromResource_outcome
    (ReadFileFromMemory : Buffer -> Z -> string -> option Assimp.aiScene)
    (retriever_get : string -> MemoryResource + string)
    (resource : string) (scale : Eigen.Vector3d) :
  let result := createMeshFromResourceScaled ReadFileFromMemory retriever_get
                                             resource scale in
  (forall mesh, result.2 = Some mesh -> result.1 = []) /\
  (result.2 = None -> result.1 <> []) /\
  (forall what, retriever_get resource = inr what ->
     result = ([logError what], None)) /\
  (forall res, retriever_get resource = inl res -> size res = 0 ->
     result = ([logWarn ("Retrieved empty mesh for resource '" ++ resource ++ "'")],
               None)) /\
  (forall res, retriever_get resource = inl res -> size res <> 0 ->
     result.2 = None ->
     last result.1 = Some (logWarn ("Assimp reports no scene in " ++ resource))).
Proof.
  cbv zeta. unfold createMeshFromResourceScaled.
  destruct (retriever_get resource) as [res|what].
  - pose proof (createMeshFromBinary_log ReadFileFromMemory (data res) (size res)
                  scale resource) as Hlog. cbv zeta in Hlog.
    destruct (Z.eqb_spec (size res) 0) as [Hz|Hnz].
    + split; [done|]. split; [done|]. split; [done|]. split; [done|].
      intros res' [= <-] Hne. done.
    + destruct (createMeshFromBinaryScaled ReadFileFromMemory (data res)
                  (size res) scale resource) as [log [mesh|]]; cbn [fst snd] in *.
      * split; [done|]. split; [done|]. split; [done|]. split; [|done].
        intros res' [= <-] Hz. done.
      * split; [done|]. split; [intros _; by destruct log|]. split; [done|].
        split; [intros res' [= <-] Hz; done|].
        intros _ _ _ _. by rewrite last_snoc.
  - split; [done|]. split; [done|]. split; [by intros ? [= ->]|]. done.
Qed.

(** X7: when everything succeeds [createMeshFromResource] is
    [createMeshFromAsset] of the imported scene: if the retriever returns
    a non-null payload of size at least one, the importer, called with the
    payload, its size and the resource name as hint, returns a scene, and
    [createMeshFromAsset] builds a mesh from that scene at the given scale,
    then that mesh is the result and nothing is logged. *)
Theorem createMeshFromResource_success
    (ReadFileFromMemory : Buffer -> Z -> string -> option Assimp.aiScene)
    (retriever_get : string -> MemoryResource + string)
    (resource : string) (scale : Eigen.Vector3d)
    (res : MemoryResource) (bytes : list Z) (scene : Assimp.aiScene)
    (mesh : Mesh) :
  retriever_get resource = inl res ->
  data res = Some bytes -> 1 <= size res ->
  ReadFileFromMemory (data res) (size res) resource = Some scene ->
  (createMeshFromAssetScaled scene scale resource).2 = Some mesh ->
  createMeshFromResourceScaled ReadFileFromMemory retriever_get resource scale
  = ([], Some mesh).
Proof.
  intros Hget Hdata Hsize Hread Hmesh.
  unfold createMeshFromResourceScaled. rewrite Hget.
  destruct (Z.eqb_spec (size res) 0) as [?|_]; [lia|].
  unfold createMeshFromBinaryScaled. rewrite Hread, Hdata.
  destruct (Z.ltb_spec (size res) 1) as [?|_]; [lia|].
  pose proof (createMeshFromAsset_diagnostics scene scale resource) as Hd.
  destruct (createMeshFromAssetScaled scene scale resource) as [log m].
  cbn [fst snd] in *. subst m. by rewrite Hd.
Qed.

Lemma createMeshFromResource_success_witness :
  createMeshFromResourceScaled
    (fun _ _ _ => Some seam_scene)
    (fun _ => inl (mkMemoryResource (Some [0]) 1))
    "package://seam.stl"%string one
  = ([], Some (createMeshFromVerticesTriangles
                 [pt 0 0 0; pt 1 0 0; pt 0 0 0] [0; 1; 2])).
Proof.
  apply (createMeshFromResource_success
           (fun _ _ _ => Some seam_scene)
           (fun _ => inl (mkMemoryResource (Some [0]) 1))
           "package://seam.stl"%string one
           (mkMemoryResource (Some [0]) 1) [0] seam_scene
           (createMeshFromVerticesTriangles
              [pt 0 0 0; pt 1 0 0; pt 0 0 0] [0; 1; 2])).
  - reflexivity.
  - reflexivity.
  - cbn. lia.
  - reflexivity.
  - vm_compute. reflexivity.
Defined.

(** ** The surface of the box *)

(** X21: the twelve triangles of a box tile its six faces and close up.
    For every box, each triangle has three different corners that agree
    in one coordinate (they lie in one face of the box); no directed edge
    occurs twice and each occurs reversed in another triangle (the surface
    is closed and wound consistently); and each of the eight corners is
    used. *)
Theorem createMeshFromShape_box_surface (box : Box) :
  let mesh := createMeshFromShape box in
  (forall t : nat, (t < 12)%nat ->
     exists a b c pa pb pc,
       load3 (triangles mesh) (Z.of_nat t) = Some (a, b, c) /\
       a <> b /\ b <> c /\ c <> a /\
       load_vec (vertices mesh) a = Some pa /\
       load_vec (vertices mesh) b = Some pb /\
       load_vec (vertices mesh) c = Some pc /\
       (Eigen.x pa = Eigen.x pb /\ Eigen.x pb = Eigen.x pc \/
        Eigen.y pa = Eigen.y pb /\ Eigen.y pb = Eigen.y pc \/
        Eigen.z pa = Eigen.z pb /\ Eigen.z pb = Eigen.z pc)) /\
  triangles mesh = map Some tri /\
  NoDup (directed_edges tri) /\
  (forall a b, (a, b) ∈ directed_edges tri -> (b, a) ∈ directed_edges tri) /\
  (forall i, 0 <= i < 8 -> i ∈ tri).
Proof.
  cbv zeta. split; [|split; [reflexivity|split; [|split]]].
  - intros t Ht.
    do 12 (destruct t as [|t];
           [do 6 eexists; split; [reflexivity|];
            split; [discriminate|]; split; [discriminate|];
            split; [discriminate|];
            split; [reflexivity|]; split; [reflexivity|];
            split; [reflexivity|];
            first [left; split; reflexivity
                  |right; left; split; reflexivity
                  |right; right; split; reflexivity]|]).
    lia.
  - apply (bool_decide_unpack _). vm_compute. reflexivity.
  - assert (H : Forall (fun e => (e.2, e.1) ∈ directed_edges tri)
                       (directed_edges tri)).
    { apply (bool_decide_unpack _). vm_compute. reflexivity. }
    rewrite Forall_forall in H. intros a b Hab. exact (H (a, b) Hab).
  - intros i Hi.
    assert (i = 0 \/ i = 1 \/ i = 2 \/ i = 3 \/ i = 4 \/ i = 5 \/ i = 6 \/ i = 7)
      as [->|[->|[->|[->|[->|[->|[->| ->]]]]]]] by lia;
      apply (bool_decide_unpack _); vm_compute; reflexivity.
Qed.
